(** * The grouping, metric-eligibility and scoring engine of [scripts/ragas_eval.py]

  A shallow embedding of the Python module and the properties of its
  grouping, metric selection and scoring orchestration.

  Modelling conventions.
  - A Python [str] is a [string] whose characters are code points below 256;
    [is_space] and [lower_char] are Python's [str.isspace] and [str.lower]
    on that range.
  - A Python [float] is an abstract type [float]; [float(n)] for an integer
    and [statistics.fmean] are operations that return a float or raise (an
    [OverflowError] for an integer beyond the range of the floats, an
    [OverflowError] or a [ValueError] of [fsum] for the mean); the
    development takes them as given, a raised exception being its [str].
  - A [dict] is an insertion-ordered association list, as in Python.
  - The row dictionaries are mutable objects: they live in a [heap] and are
    passed around by reference ([loc]), an index into the heap.  Python has
    no dangling reference; a statement about the contents of rows takes the
    references to be below the length of the heap.
  - The external metric scorer is an oracle threading a [World]: a call
    reads the contents of the rows and the metric object, and returns an
    exception or the records of the result.  It does not write to the
    rows. *)

From Stdlib Require Import ZArith QArith Ascii String.
From stdpp Require Import base option list sorting strings gmap.

Set Warnings "-register-all,-clear-no-such-hyp".

Local Open Scope string_scope.
Local Open Scope list_scope.
Local Open Scope nat_scope.

(** ** Python strings *)

Module PyStr.

(** [str.isspace] on the code points below 256. *)
Definition is_space (c : ascii) : bool :=
  let n := nat_of_ascii c in
  ((9 <=? n) && (n <=? 13)) || ((28 <=? n) && (n <=? 32))
  || (n =? 133) || (n =? 160).

Fixpoint lstrip (s : string) : string :=
  match s with
  | EmptyString => EmptyString
  | String c rest => if is_space c then lstrip rest else s
  end.

Definition rstrip (s : string) : string :=
  String.rev (lstrip (String.rev s)).

(** [s.strip()] *)
Definition strip (s : string) : string := rstrip (lstrip s).

(** [str.lower] on one code point below 256. *)
Definition lower_char (c : ascii) : ascii :=
  let n := nat_of_ascii c in
  if ((65 <=? n) && (n <=? 90))
     || ((192 <=? n) && (n <=? 222) && negb (n =? 215))
  then ascii_of_nat (n + 32) else c.

Fixpoint map_chars (f : ascii -> ascii) (s : string) : string :=
  match s with
  | EmptyString => EmptyString
  | String c rest => String (f c) (map_chars f rest)
  end.

(** [s.lower()] *)
Definition lower (s : string) : string := map_chars lower_char s.

(** [s.replace(old, new)] for one-character [old] and [new]. *)
Definition replace_char (old new : ascii) (s : string) : string :=
  map_chars (fun c => if Ascii.eqb c old then new else c) s.

(** [sep.join(items)] *)
Fixpoint join (sep : string) (items : list string) : string :=
  match items with
  | [] => ""
  | [x] => x
  | x :: rest => x +:+ sep +:+ join sep rest
  end.

(** [sorted(items)] for a list of strings: the order is the lexicographic
    order on code points. *)
Definition sorted (items : list string) : list string :=
  merge_sort String.le items.

(** Truthiness of a string. *)
Definition truthy (s : string) : bool := negb (String.eqb s "").

(** [s.split(sep)] for a one-character [sep]. *)
Fixpoint split (sep : ascii) (s : string) : list string :=
  match s with
  | EmptyString => [""]
  | String c rest =>
      if Ascii.eqb c sep then "" :: split sep rest
      else match split sep rest with
           | first :: others => String c first :: others
           | [] => [String c ""]
           end
  end.

End PyStr.

(** ** Python values and dictionaries *)

(** A dict with string keys: an association list in insertion order. *)
Abbreviation dict V := (list (string * V)).

Section Engine.

Context {float : Type}.

(** Exceptions and results of fallible functions. *)
Inductive exn : Type :=
| ValueError (message : string)
| KeyError (key : string)
| IndexError (message : string).

Inductive result (A : Type) : Type :=
| Ok (a : A)
| Raise (e : exn).
Global Arguments Ok {A} a.
Global Arguments Raise {A} e.

(** A Python value as it occurs in a row.  [VObject] stands for a value of
    any other class (a NumPy scalar, a timestamp, ...): [item] records
    whether it has an [item] attribute and, if so, whether calling it raises
    ([Some None]) or returns a value; [repr] is [str(value)]. *)
Inductive value : Type :=
| VNone
| VBool (b : bool)
| VInt (n : Z)
| VFloat (x : float)
| VStr (s : string)
| VList (items : list value)
| VTuple (items : list value)
| VDict (items : list (string * value))
| VObject (item : option (option value)) (repr : string).

(** [d.get(key)], [None] of the option standing for a missing key. *)
Fixpoint dict_get {V} (d : dict V) (key : string) : option V :=
  match d with
  | [] => None
  | (k, v) :: rest => if String.eqb k key then Some v else dict_get rest key
  end.

(** [d[key] = v]: overwrite in place, or append a new key. *)
Fixpoint dict_set {V} (d : dict V) (key : string) (v : V) : dict V :=
  match d with
  | [] => [(key, v)]
  | (k, x) :: rest =>
      if String.eqb k key then (k, v) :: rest
      else (k, x) :: dict_set rest key v
  end.

(** A row is a dict of values. *)
Local Abbreviation row := (dict value).

(** [row.get(key)] as Python sees it: a missing key reads as [None]. *)
Definition row_get (r : row) (key : string) : value :=
  default VNone (dict_get r key).

(** [has_value(row, key)] *)
Definition has_value (r : row) (key : string) : bool :=
  match row_get r key with
  | VNone => false
  | VStr s => negb (String.eqb (PyStr.strip s) "")
  | VList items => 0 <? length items
  | _ => true
  end.

(** [normalize_json_value(value)] *)
Fixpoint normalize_json_value (v : value) : value :=
  match v with
  | VDict items =>
      VDict (map (fun kv => (fst kv, normalize_json_value (snd kv))) items)
  | VList items => VList (map normalize_json_value items)
  | VTuple items => VList (map normalize_json_value items)
  | VObject (Some (Some result)) _ => result
  | VObject (Some None) repr => VStr repr
  | VObject None repr => VStr repr
  | VNone | VBool _ | VInt _ | VFloat _ | VStr _ => v
  end.

(** [normalize_json_value] on a row, which is a dict. *)
Definition normalize_row (r : row) : row :=
  map (fun kv => (fst kv, normalize_json_value (snd kv))) r.

(** ** Group resolver *)

(** The test [isinstance(x, str) and x.strip()], with the value
    [x.strip()] that is returned when it passes. *)
Definition stripped_text (v : value) : option string :=
  match v with
  | VStr s => if PyStr.truthy (PyStr.strip s) then Some (PyStr.strip s) else None
  | _ => None
  end.

(** [get_group_key(row, group_by)] *)
Definition get_group_key (r : row) (group_by : string) : string :=
  if String.eqb group_by "none" then "all"
  else
    match stripped_text (row_get r "category") with
    | Some category => category
    | None =>
        match row_get r "metadata" with
        | VDict metadata =>
            match stripped_text (default VNone (dict_get metadata "category")) with
            | Some nested_category => nested_category
            | None => "uncategorized"
            end
        | _ => "uncategorized"
        end
    end.

(** ** Rows on the heap *)

(** Row dicts are objects: a reference [loc] is an index into the heap. *)
Local Abbreviation loc := nat.
Local Abbreviation heap := (list row).

Definition deref (h : heap) (l : loc) : row := default [] (h !! l).

(** A new dict object. *)
Definition alloc (h : heap) (r : row) : heap * loc := (h ++ [r], length h).

(** [obj[key] = v] on the dict object at [l]. *)
Definition set_item (h : heap) (l : loc) (key : string) (v : value) : heap :=
  alter (fun r => dict_set r key v) l h.

(** [grouped.setdefault(key, []).append(row)] *)
Definition setdefault_append (grouped : dict (list loc)) (key : string) (r : loc)
  : dict (list loc) :=
  match dict_get grouped key with
  | Some members => dict_set grouped key (members ++ [r])
  | None => dict_set grouped key [r]
  end.

(** [group_rows(rows, group_by)] *)
Definition group_rows (h : heap) (rows : list loc) (group_by : string)
  : dict (list loc) :=
  fold_left
    (fun grouped r => setdefault_append grouped (get_group_key (deref h r) group_by) r)
    rows [].

(** ** Metric eligibility and selection *)

(** [normalize_group_name(group_name)] *)
Definition normalize_group_name (group_name : string) : string :=
  PyStr.replace_char "_" "-" (PyStr.lower (PyStr.strip group_name)).

(** [get_default_metric_preferences(group_name)] *)
Definition get_default_metric_preferences (group_name : string)
  : option (list string) :=
  let normalized := normalize_group_name group_name in
  if String.eqb normalized "qa"
  then Some ["semantic_similarity"; "factual_correctness"]
  else if String.eqb normalized "work-search" || String.eqb normalized "work"
  then Some ["semantic_similarity"]
  else None.

(** The table [requirements] of [pick_metric_names], in declaration order. *)
Definition requirements : dict (list string) :=
  [ ("response_relevancy", ["user_input"; "response"]);
    ("faithfulness", ["user_input"; "response"; "retrieved_contexts"]);
    ("context_recall", ["user_input"; "reference"; "retrieved_contexts"]);
    ("factual_correctness", ["user_input"; "response"; "reference"]);
    ("semantic_similarity", ["response"; "reference"]) ].

(** [key in d] *)
Definition dict_mem {V} (d : dict V) (key : string) : bool :=
  match dict_get d key with Some _ => true | None => false end.

(** Truthiness of a list. *)
Definition nonempty {A} (l : list A) : bool :=
  match l with [] => false | _ :: _ => true end.

(** The list [available] of [pick_metric_names]. *)
Definition available_metrics (rows : list row) : list string :=
  map fst
    (List.filter
       (fun entry => forallb (fun r => forallb (has_value r) (snd entry)) rows)
       requirements).

(** [pick_metric_names(rows, requested_metrics, group_name)] *)
Definition pick_metric_names (rows : list row)
    (requested_metrics : option (list string)) (group_name : string)
  : result (list string * list string) :=
  let available := available_metrics rows in
  if nonempty (default [] requested_metrics) then
    let requested := default [] requested_metrics in
    let unsupported :=
      List.filter (fun metric => negb (dict_mem requirements metric)) requested in
    if nonempty unsupported then
      Raise (ValueError
               ("Unsupported metrics: "
                +:+ PyStr.join ", " (PyStr.sorted unsupported)
                +:+ ". Supported metrics: "
                +:+ PyStr.join ", " (PyStr.sorted (map fst requirements))))
    else
      let missing_inputs :=
        List.filter
          (fun metric_name => negb (bool_decide (metric_name ∈ available)))
          requested in
      if nonempty missing_inputs then
        Raise (ValueError
                 ("Requested metrics are missing required fields in at least one row: "
                  +:+ PyStr.join ", " missing_inputs))
      else Ok (requested, available)
  else
    let fallback := Ok (available, available) in
    match get_default_metric_preferences group_name with
    | Some preferred_metrics =>
        if nonempty preferred_metrics then
          let selected :=
            List.filter (fun metric_name => bool_decide (metric_name ∈ available))
              preferred_metrics in
          if nonempty selected then Ok (selected, available) else fallback
        else fallback
    | None => fallback
    end.

(** ** Scoring *)

(** [float(n)] of an integer and [statistics.fmean(values)]: the float, or
    the [str] of the exception raised. *)
Context (float_of_int : Z -> string + float)
        (fmean : list float -> string + float).

(** A metric object of the scoring library, with its [name] attribute (if
    it has one) and the name of its class. *)
Context {Metric : Type}
        (name_attr : Metric -> option string)
        (class_name : Metric -> string).

(** [str(getattr(metric, "name", metric.__class__.__name__))] *)
Definition metric_name (metric : Metric) : string :=
  default (class_name metric) (name_attr metric).

(** What building the dataset, [evaluate] and [to_pandas().to_dict] do for
    one metric: an exception, with its [str], or the records. *)
Inductive scorer_outcome : Type :=
| ScorerRaised (message : string)
| ScorerRecords (records : list row).

(** The scoring library: a call reads the rows and the metric, and may
    depend on and change the state of the world outside the program. *)
Context {World : Type}
        (evaluate : World -> list row -> Metric -> World * scorer_outcome).

(** [isinstance(v, (int, float))], with what [float(v)] does when it holds:
    it returns a float, or raises for an integer that is too large; a [bool]
    is an [int] in Python. *)
Definition numeric_score (v : value) : option (string + float) :=
  match v with
  | VBool b => Some (float_of_int (if b then 1 else 0)%Z)
  | VInt n => Some (float_of_int n)
  | VFloat x => Some (inr x)
  | _ => None
  end.

(** The list [values] of [score_metric]; the comprehension stops at the
    first [float(...)] that raises. *)
Fixpoint numeric_values (name : string) (scored_rows : list row)
  : string + list float :=
  match scored_rows with
  | [] => inr []
  | r :: rest =>
      match numeric_score (row_get r name) with
      | None => numeric_values name rest
      | Some (inl error) => inl error
      | Some (inr x) =>
          match numeric_values name rest with
          | inl error => inl error
          | inr values => inr (x :: values)
          end
      end
  end.

(** [fmean(values) if values else None] *)
Definition average_of (values : list float) : string + option float :=
  if nonempty values
  then match fmean values with
       | inl error => inl error
       | inr average => inr (Some average)
       end
  else inr None.

(** The lines of [score_metric] that follow the scorer call, on the records
    it returned: the [str] of the exception that [float] or [fmean] raises,
    or the pair that [score_metric] returns. *)
Definition score_records (name : string) (records : list row)
  : string + list row * option float :=
  let scored_rows := map normalize_row records in
  match numeric_values name scored_rows with
  | inl error => inl error
  | inr values =>
      match average_of values with
      | inl error => inl error
      | inr average => inr (scored_rows, average)
      end
  end.

(** [score_metric(rows, metric)]: the [str] of the exception that leaves it,
    or the pair it returns. *)
Definition score_metric (w : World) (rows : list row) (metric : Metric)
  : World * (string + list row * option float) :=
  match evaluate w rows metric with
  | (w', ScorerRaised message) => (w', inl message)
  | (w', ScorerRecords records) => (w', score_records (metric_name metric) records)
  end.

(** The state of the loop of [score_rows]. *)
Record scoring : Type := Scoring {
  sc_world : World;
  sc_heap : heap;
  sc_summary : gmap string float;
  sc_failures : gmap string string;
}.

(** [scored_rows = [normalize_json_value(row) for row in rows]] *)
Fixpoint copy_rows (h : heap) (rows : list loc) : heap * list loc :=
  match rows with
  | [] => (h, [])
  | r :: rest =>
      let '(h1, l) := alloc h (normalize_row (deref h r)) in
      let '(h2, ls) := copy_rows h1 rest in
      (h2, l :: ls)
  end.

(** [for row in scored_rows: row[metric_name] = None] *)
Definition set_all_none (h : heap) (scored_rows : list loc) (name : string) : heap :=
  fold_left (fun h' l => set_item h' l name VNone) scored_rows h.

(** [for index, metric_row in enumerate(metric_rows):
       scored_rows[index][metric_name] = metric_row.get(metric_name)],
    from position [index] on. *)
Fixpoint merge_scores (h : heap) (scored_rows : list loc) (name : string)
    (index : nat) (metric_rows : list row) : heap * result unit :=
  match metric_rows with
  | [] => (h, Ok tt)
  | metric_row :: rest =>
      match scored_rows !! index with
      | Some l =>
          merge_scores (set_item h l name (row_get metric_row name))
            scored_rows name (S index) rest
      | None => (h, Raise (IndexError "list index out of range"))
      end
  end.

(** One iteration of the loop of [score_rows]. *)
Definition score_step (rows scored_rows : list loc) (st : scoring) (metric : Metric)
  : scoring * result unit :=
  let name := metric_name metric in
  match score_metric (sc_world st) (map (deref (sc_heap st)) rows) metric with
  | (w', inl error) =>
      (Scoring w' (set_all_none (sc_heap st) scored_rows name)
         (sc_summary st) (<[name := error]> (sc_failures st)),
       Ok tt)
  | (w', inr (metric_rows, average)) =>
      match merge_scores (sc_heap st) scored_rows name 0 metric_rows with
      | (h', Ok _) =>
          (Scoring w' h'
             (match average with
              | Some a => <[name := a]> (sc_summary st)
              | None => sc_summary st
              end)
             (sc_failures st),
           Ok tt)
      | (h', Raise e) =>
          (Scoring w' h' (sc_summary st) (sc_failures st), Raise e)
      end
  end.

(** [for metric in metrics: ...] *)
Fixpoint score_loop (rows scored_rows : list loc) (st : scoring)
    (metrics : list Metric) : scoring * result unit :=
  match metrics with
  | [] => (st, Ok tt)
  | metric :: rest =>
      match score_step rows scored_rows st metric with
      | (st', Ok _) => score_loop rows scored_rows st' rest
      | (st', Raise e) => (st', Raise e)
      end
  end.

(** The state in which the loop of [score_rows] starts, with the list
    [scored_rows]. *)
Definition score_rows_init (w : World) (h : heap) (rows : list loc)
  : scoring * list loc :=
  let '(h', scored_rows) := copy_rows h rows in
  (Scoring w h' ∅ ∅, scored_rows).

(** [score_rows(rows, metrics)]: the world and the heap it leaves, and the
    triple it returns or the exception it raises. *)
Definition score_rows (w : World) (h : heap) (rows : list loc) (metrics : list Metric)
  : World * heap * result (list loc * gmap string float * gmap string string) :=
  let '(st0, scored_rows) := score_rows_init w h rows in
  match score_loop rows scored_rows st0 metrics with
  | (st, Ok _) =>
      (sc_world st, sc_heap st, Ok (scored_rows, sc_summary st, sc_failures st))
  | (st, Raise e) => (sc_world st, sc_heap st, Raise e)
  end.

(** ** The report of a run *)

(** The object a metric class builds from its arguments (the evaluator
    model handles), by the name under which [import_metrics] registers the
    class. *)
Context (construct : string -> Metric).

(** The keys of the dict returned by [import_metrics]. *)
Definition metric_class_names : list string :=
  [ "response_relevancy"; "faithfulness"; "context_recall";
    "factual_correctness"; "semantic_similarity" ].

(** [build_metrics(metric_names, llm, embeddings)] *)
Fixpoint build_metrics (metric_names : list string) : result (list Metric) :=
  match metric_names with
  | [] => Ok []
  | metric_name :: rest =>
      if negb (bool_decide (metric_name ∈ metric_class_names))
      then Raise (KeyError metric_name)
      else if String.eqb metric_name "response_relevancy"
              || String.eqb metric_name "semantic_similarity"
              || bool_decide (metric_name ∈
                   ["faithfulness"; "context_recall"; "factual_correctness"])
      then match build_metrics rest with
           | Ok metrics => Ok (construct metric_name :: metrics)
           | Raise e => Raise e
           end
      else Raise (ValueError ("Unsupported metric configuration: " +:+ metric_name))
  end.

(** One entry of [groups_output]. *)
Record GroupReport : Type := {
  row_count : nat;
  selected_metrics : list string;
  auto_available_metrics : list string;
  summary : gmap string float;
  metric_failures : gmap string string;
  report_rows : list loc;
}.

(** The variables of [main] that its loop over the groups updates. *)
Record run : Type := Run {
  run_world : World;
  run_heap : heap;
  groups_output : dict GroupReport;
  flattened_rows : list loc;
  summary_by_group : dict (gmap string float);
  failures_by_group : dict (gmap string string);
}.

Definition no_metrics_message : string :=
  "No compatible metrics could be selected from this group. "
  +:+ "Expected fields such as user_input, response, reference, and retrieved_contexts.".

(** [for row in rows: row["evaluation_group"] = group_name] *)
Definition tag_rows (h : heap) (rows : list loc) (group_name : string) : heap :=
  fold_left (fun h' l => set_item h' l "evaluation_group" (VStr group_name)) rows h.

(** The body of the loop of [main] over [grouped.items()]. *)
Definition process_group (requested_metrics : option (list string)) (st : run)
    (group_name : string) (group_rows_list : list loc) : run * result unit :=
  match pick_metric_names (map (deref (run_heap st)) group_rows_list)
          requested_metrics group_name with
  | Raise e => (st, Raise e)
  | Ok (metric_names, available_metrics) =>
      if negb (nonempty metric_names) then
        let '(h1, copies) := copy_rows (run_heap st) group_rows_list in
        let report :=
          {| row_count := length group_rows_list;
             selected_metrics := [];
             auto_available_metrics := available_metrics;
             summary := ∅;
             metric_failures := {[ "_group" := no_metrics_message ]};
             report_rows := copies |} in
        (Run (run_world st) (tag_rows h1 copies group_name)
           (dict_set (groups_output st) group_name report)
           (flattened_rows st ++ copies)
           (summary_by_group st)
           (dict_set (failures_by_group st) group_name (metric_failures report)),
         Ok tt)
      else
        match build_metrics metric_names with
        | Raise e => (st, Raise e)
        | Ok metrics =>
            match score_rows (run_world st) (run_heap st) group_rows_list metrics with
            | (w', h', Raise e) =>
                (Run w' h' (groups_output st) (flattened_rows st)
                   (summary_by_group st) (failures_by_group st),
                 Raise e)
            | (w', h', Ok (scored_rows, group_summary, failures)) =>
                let report :=
                  {| row_count := length group_rows_list;
                     selected_metrics := metric_names;
                     auto_available_metrics := available_metrics;
                     summary := group_summary;
                     metric_failures := failures;
                     report_rows := scored_rows |} in
                (Run w' (tag_rows h' scored_rows group_name)
                   (dict_set (groups_output st) group_name report)
                   (flattened_rows st ++ scored_rows)
                   (dict_set (summary_by_group st) group_name group_summary)
                   (dict_set (failures_by_group st) group_name failures),
                 Ok tt)
            end
        end
  end.

(** [for group_name, group_rows_list in grouped.items(): ...] *)
Fixpoint process_groups (requested_metrics : option (list string)) (st : run)
    (grouped : dict (list loc)) : run * result unit :=
  match grouped with
  | [] => (st, Ok tt)
  | (group_name, group_rows_list) :: rest =>
      match process_group requested_metrics st group_name group_rows_list with
      | (st', Ok _) => process_groups requested_metrics st' rest
      | (st', Raise e) => (st', Raise e)
      end
  end.

(** [main] from the loaded rows to the variables that make up the report. *)
Definition evaluate_rows (w : World) (h : heap) (rows : list loc)
    (group_by : string) (requested_metrics : option (list string))
  : run * result unit :=
  let start := Run w h [] [] [] [] in
  if negb (bool_decide (group_by ∈ ["category"; "none"]))
  then (start, Raise (ValueError "--group-by must be either category or none."))
  else if negb (nonempty rows)
  then (start, Raise (ValueError "Input dataset is empty."))
  else process_groups requested_metrics start (group_rows h rows group_by).

(** ** The words of the specification *)

(** The five known metric identifiers. *)
Definition known_metrics : list string :=
  [ "response_relevancy"; "faithfulness"; "context_recall";
    "factual_correctness"; "semantic_similarity" ].

(** White space, by code point: the characters that trimming removes
    (tab to carriage return, the four separators, the space, next line and
    the no-break space). *)
Definition whitespace (c : ascii) : Prop :=
  nat_of_ascii c ∈ [9; 10; 11; 12; 13; 28; 29; 30; 31; 32; 133; 160].

(** A string that is empty after trimming: it has white space only. *)
Definition blank (s : string) : Prop :=
  ∀ c, c ∈ list_ascii_of_string s → whitespace c.

(** A string with no white space at either end. *)
Definition unpadded (s : string) : Prop :=
  (∀ c rest, s = String c rest → ¬ whitespace c)
  ∧ (∀ front c, s = front +:+ String c "" → ¬ whitespace c).

(** The trimmed text of a string: the string without the white space at
    its two ends. *)
Definition trimmed_of (s core : string) : Prop :=
  ∃ before after,
    s = before +:+ core +:+ after ∧ blank before ∧ blank after ∧ unpadded core.

(** A usable value: not null, not a string that is empty after trimming,
    not an empty list. *)
Definition usable (v : value) : Prop :=
  v ≠ VNone ∧ (∀ s, v = VStr s → ¬ blank s) ∧ v ≠ VList [].

(** The fields that each of the five metrics requires. *)
Definition required_fields (metric : string) : option (list string) :=
  if String.eqb metric "response_relevancy"
  then Some ["user_input"; "response"]
  else if String.eqb metric "faithfulness"
  then Some ["user_input"; "response"; "retrieved_contexts"]
  else if String.eqb metric "context_recall"
  then Some ["user_input"; "reference"; "retrieved_contexts"]
  else if String.eqb metric "factual_correctness"
  then Some ["user_input"; "response"; "reference"]
  else if String.eqb metric "semantic_similarity"
  then Some ["response"; "reference"]
  else None.

(** A metric is eligible for a group when every row has a usable value for
    every field the metric requires. *)
Definition eligible (rows : list row) (metric : string) : Prop :=
  ∃ fields, required_fields metric = Some fields
            ∧ ∀ r, r ∈ rows → ∀ field, field ∈ fields → usable (row_get r field).

(** The normalized name of a group: the name trimmed, in lower case, with a
    hyphen for every underscore. *)
Definition normalized_name (group_name normalized : string) : Prop :=
  ∃ core,
    trimmed_of group_name core
    ∧ normalized
      = PyStr.map_chars
          (fun c => if Ascii.eqb c "_" then "-"%char else PyStr.lower_char c) core.

(** A text that lists names, separated by a comma and a space. *)
Inductive enumerates : list string -> string -> Prop :=
| enumerates_none : enumerates [] ""
| enumerates_one name : enumerates [name] name
| enumerates_more name next names text :
    enumerates (next :: names) text ->
    enumerates (name :: next :: names) (name +:+ ", " +:+ text).

(** A text occurs in a message. *)
Definition occurs_in (text message : string) : Prop :=
  ∃ before after, message = before +:+ text +:+ after.

(** A string that is non-empty after trimming, with its trimmed text. *)
Definition trimmed_text (v : value) (text : string) : Prop :=
  ∃ raw, v = VStr raw ∧ text = PyStr.strip raw ∧ text ≠ "".

(** The nested field [metadata.category] of a row; null when absent. *)
Definition metadata_category (r : row) : value :=
  match row_get r "metadata" with
  | VDict metadata => default VNone (dict_get metadata "category")
  | _ => VNone
  end.

(** The default preferences, by normalized group name. *)
Definition default_preferences : dict (list string) :=
  [ ("qa", ["semantic_similarity"; "factual_correctness"]);
    ("work-search", ["semantic_similarity"]);
    ("work", ["semantic_similarity"]) ].

(** The error kinds of the specification; the program raises both as a
    [ValueError], told apart by the message. *)
Definition UnsupportedMetricError (offending supported : list string) : exn :=
  ValueError ("Unsupported metrics: " +:+ PyStr.join ", " offending
              +:+ ". Supported metrics: " +:+ PyStr.join ", " supported).

Definition MissingFieldsError (offending : list string) : exn :=
  ValueError ("Requested metrics are missing required fields in at least one row: "
              +:+ PyStr.join ", " offending).

(** The sum of the row counts of the groups. *)
Definition total_row_count (grouped : dict (list loc)) : nat :=
  sum_list (map (fun group => length (snd group)) grouped).

(** A name is in exactly one of the summary and the failure map. *)
Definition in_exactly_one (name : string)
    (group_summary : gmap string float) (failures : gmap string string) : Prop :=
  (is_Some (group_summary !! name) ∨ is_Some (failures !! name))
  ∧ ¬ (is_Some (group_summary !! name) ∧ is_Some (failures !! name)).

(** The outcomes of the scorer calls that scoring [metrics] over rows with
    the given contents makes, in order. *)
Fixpoint scorer_outcomes (w : World) (contents : list row) (metrics : list Metric)
  : list scorer_outcome :=
  match metrics with
  | [] => []
  | metric :: rest =>
      let '(w', outcome) := evaluate w contents metric in
      outcome :: scorer_outcomes w' contents rest
  end.

(** What [score_metric] makes of the outcome of the scorer call for a
    metric of that name: the [str] of the exception that leaves it, or the
    pair it returns. *)
Definition metric_result (name : string) (outcome : scorer_outcome)
  : string + list row * option float :=
  match outcome with
  | ScorerRaised message => inl message
  | ScorerRecords records => score_records name records
  end.

(** What [score_metric] does for each metric of the list, in order. *)
Fixpoint metric_results (w : World) (contents : list row) (metrics : list Metric)
  : list (string + list row * option float) :=
  match metrics with
  | [] => []
  | metric :: rest =>
      let '(w', result) := score_metric w contents metric in
      result :: metric_results w' contents rest
  end.

(** A numeric score: an integer or a float; a boolean is an integer. *)
Definition numeric (v : value) : bool :=
  match v with
  | VBool _ | VInt _ | VFloat _ => true
  | _ => false
  end.

(** The numeric scores that a metric produced: the values that the records
    of the scorer, normalized, hold under its name, those that are not
    numeric or absent being left out. *)
Definition numeric_scores (name : string) (records : list row) : list value :=
  List.filter numeric (map (fun record => row_get (normalize_row record) name) records).

(** The float of a numeric score, or the [str] of the exception that the
    conversion of an integer raises. *)
Inductive float_of : value -> string + float -> Prop :=
| float_of_float x : float_of (VFloat x) (inr x)
| float_of_integer n : float_of (VInt n) (float_of_int n)
| float_of_true : float_of (VBool true) (float_of_int 1)
| float_of_false : float_of (VBool false) (float_of_int 0).

(** ** The command line and the environment *)

(** [parse_metric_list(raw)] *)
Definition parse_metric_list (raw : option string) : option (list string) :=
  match raw with
  | None => None
  | Some text =>
      if PyStr.truthy text then
        let metrics :=
          List.filter PyStr.truthy (map PyStr.strip (PyStr.split "," text)) in
        if nonempty metrics then Some metrics else None
      else None
  end.

(** [x or y] for two values that are a [str] or [None]. *)
Definition str_or (x y : option string) : option string :=
  match x with
  | Some text => if PyStr.truthy text then x else y
  | None => y
  end.

(** [os.environ.setdefault(key, value)] *)
Definition environ_setdefault (environ : gmap string string) (key value : string)
  : gmap string string :=
  match environ !! key with
  | Some _ => environ
  | None => <[key := value]> environ
  end.

(** [resolve_region(explicit_region)], on the environment it reads and
    updates. *)
Definition resolve_region (explicit_region : option string)
    (environ : gmap string string) : gmap string string * result string :=
  let region :=
    str_or explicit_region
      (str_or (environ !! "RAGAS_AWS_REGION")
         (str_or (environ !! "AWS_REGION") (environ !! "AWS_DEFAULT_REGION"))) in
  match region with
  | Some text =>
      if PyStr.truthy text then
        (environ_setdefault
           (environ_setdefault (environ_setdefault environ "AWS_REGION" text)
              "AWS_DEFAULT_REGION" text)
           "AWS_REGION_NAME" text,
         Ok text)
      else
        (environ,
         Raise (ValueError
                  "Missing AWS region. Pass --region or set AWS_DEFAULT_REGION."))
  | None =>
      (environ,
       Raise (ValueError
                "Missing AWS region. Pass --region or set AWS_DEFAULT_REGION."))
  end.

(** ** More words for the properties *)

(** A value that [json.dumps] accepts: a primitive, or a list or a dict of
    such values; no tuple and no object of another class. *)
Fixpoint json_value (v : value) : bool :=
  match v with
  | VList items => forallb json_value items
  | VDict items => forallb (fun kv => json_value (snd kv)) items
  | VTuple _ | VObject _ _ => false
  | VNone | VBool _ | VInt _ | VFloat _ | VStr _ => true
  end.

(** Every [item()] that succeeds inside the value returns a JSON value. *)
Fixpoint items_json (v : value) : bool :=
  match v with
  | VList items | VTuple items => forallb items_json items
  | VDict items => forallb (fun kv => items_json (snd kv)) items
  | VObject (Some (Some result)) _ => json_value result
  | VObject _ _ => true
  | VNone | VBool _ | VInt _ | VFloat _ | VStr _ => true
  end.

(** The scorer returned no more records than there are rows. *)
Definition outcome_fits (n : nat) (outcome : scorer_outcome) : bool :=
  match outcome with
  | ScorerRaised _ => true
  | ScorerRecords records => length records <=? n
  end.

(** [score_metric] raised, or returned no more rows than there are rows. *)
Definition result_fits (n : nat) (result : string + list row * option float)
  : bool :=
  match result with
  | inl _ => true
  | inr (metric_rows, _) => length metric_rows <=? n
  end.

(** The world after the scorer calls that scoring [metrics] over rows with
    the given contents makes. *)
Fixpoint scorer_world (w : World) (contents : list row) (metrics : list Metric)
  : World :=
  match metrics with
  | [] => w
  | metric :: rest => scorer_world (fst (evaluate w contents metric)) contents rest
  end.

(** The group key of the row behind a reference. *)
Definition key_of (h : heap) (group_by : string) (l : loc) : string :=
  get_group_key (deref h l) group_by.

End Engine.

(** A row is a dict of values; a heap is a list of rows, and a reference
    [loc] an index into it. *)
Abbreviation row := (dict value).
Abbreviation loc := nat.
Abbreviation heap := (list row).

(** ** A concrete instance

    Floats as rationals, metric objects as their names, and a scorer that
    plays back a script: the world is the list of outcomes still to come. *)

Module Demo.

(** [float(n)]: an integer that rounds to [2 ^ 1024] or beyond is too large
    for a float. *)
Definition float_of_int (n : Z) : string + Q :=
  if (Z.abs n <? 2 ^ 1024 - 2 ^ 970)%Z then inr (inject_Z n)
  else inl "int too large to convert to float".

(** [fmean(values)]: the mean, in lowest terms; the values of the scenarios
    are small, and their sum is exact and in the range of the floats. *)
Definition fmean (values : list Q) : string + Q :=
  match values with
  | [] => inl "fmean requires at least one data point"
  | _ :: _ =>
      inr (Qred (Qdiv (fold_right Qplus (inject_Z 0) values)
                   (inject_Z (Z.of_nat (length values)))))
  end.

Definition name_attr (metric : string) : option string := Some metric.

Definition class_name (metric : string) : string := "Metric".

Definition construct (name : string) : string := name.

Definition evaluate (script : list (@scorer_outcome Q)) (rows : list (dict (@value Q)))
    (metric : string) : list (@scorer_outcome Q) * @scorer_outcome Q :=
  match script with
  | outcome :: rest => (rest, outcome)
  | [] => ([], ScorerRaised "no outcome left")
  end.

(** A row with a question, an answer and a reference, but no contexts. *)
Definition qa_row : dict (@value Q) :=
  [ ("user_input", VStr "What is RAG?");
    ("response", VStr "Retrieval-augmented generation.");
    ("reference", VStr "Retrieval augmented generation") ].

(** A row without any of the fields that the metrics read. *)
Definition bare_row : dict (@value Q) := [ ("note", VStr "n/a") ].

(** A row whose [category] is blank and whose [metadata.category] is not. *)
Definition blank_category_row : dict (@value Q) :=
  [ ("category", VStr " "); ("metadata", VDict [("category", VStr "qa")]) ].

(** The scorer fails for the first metric and scores the second. *)
Definition one_failure_script : list (@scorer_outcome Q) :=
  [ ScorerRaised "scorer timed out";
    ScorerRecords [ [("factual_correctness", VFloat (1 # 2)%Q)] ] ].

(** The scorer fails, then succeeds, for the same metric, and returns no
    numeric score for another one. *)
Definition unsettled_script : list (@scorer_outcome Q) :=
  [ ScorerRaised "scorer timed out";
    ScorerRecords [ [("semantic_similarity", VFloat (1 # 2)%Q)] ];
    ScorerRecords [ [("factual_correctness", VNone)] ] ].

(** The scorer returns, as the score of the first metric, an integer that
    is too large for a float, and scores the second metric. *)
Definition overflow_records : list (dict (@value Q)) :=
  [ [("semantic_similarity", VInt (2 ^ 1024))] ].

Definition overflow_script : list (@scorer_outcome Q) :=
  [ ScorerRecords overflow_records;
    ScorerRecords [ [("factual_correctness", VFloat (1 # 2)%Q)] ] ].

(** The scorer returns, for four rows, a float, a text, an integer and a
    record without the score. *)
Definition mixed_records : list (dict (@value Q)) :=
  [ [("semantic_similarity", VFloat (1 # 2)%Q)];
    [("semantic_similarity", VStr "n/a")];
    [("semantic_similarity", VInt 1)];
    [("user_input", VStr "What is RAG?")] ].

Definition mixed_script : list (@scorer_outcome Q) :=
  [ ScorerRecords mixed_records ].

(** The scorer scores a metric that is listed twice: the first time with a
    float, the second time with a text. *)
Definition repeated_script : list (@scorer_outcome Q) :=
  [ ScorerRecords [ [("semantic_similarity", VFloat (1 # 2)%Q)] ];
    ScorerRecords [ [("semantic_similarity", VStr "n/a")] ] ].

Definition score_rows :=
  score_rows float_of_int fmean name_attr class_name evaluate.

(** A scorer that is down: every call fails. *)
Definition failing_evaluate (w : unit) (rows : list (dict (@value Q)))
    (metric : string) : unit * @scorer_outcome Q :=
  (tt, ScorerRaised "scorer unavailable").

(** A row of the category "qa" and a row of the category "work". *)
Definition qa_category_row : dict (@value Q) :=
  ("category", VStr " qa ") :: qa_row.

Definition work_category_row : dict (@value Q) :=
  [ ("metadata", VDict [("category", VStr "work")]);
    ("response", VStr "Three items found.");
    ("reference", VStr "Three items") ].

Definition evaluate_rows :=
  evaluate_rows float_of_int fmean name_attr class_name evaluate construct.

End Demo.

(** * Properties *)

Section Properties.

Context {float : Type}.
Local Abbreviation row := (dict (@value float)).
Local Abbreviation heap := (list row).
Implicit Types (r : row) (h : heap) (v : @value float).

(** ** Dictionaries *)

Lemma dict_get_set_eq {V} (d : dict V) key (x : V) :
  dict_get (dict_set d key x) key = Some x.
Proof.
  induction d as [|[k y] d IH]; simpl.
  - by rewrite String.eqb_refl.
  - destruct (String.eqb k key) eqn:E; simpl; rewrite E; done.
Qed.

Lemma dict_get_set_ne {V} (d : dict V) key key' (x : V) :
  key ≠ key' → dict_get (dict_set d key x) key' = dict_get d key'.
Proof.
  intros Hne. induction d as [|[k y] d IH]; simpl.
  - destruct (String.eqb key key') eqn:E; [|done].
    by apply String.eqb_eq in E.
  - destruct (String.eqb k key) eqn:E; simpl.
    + apply String.eqb_eq in E as ->.
      destruct (String.eqb key key') eqn:E'; [|done].
      by apply String.eqb_eq in E'.
    + by rewrite IH.
Qed.

Local Abbreviation chars := list_ascii_of_string.

(** ** Trimming *)

Lemma rev_app_rev_app (s t u : string) :
  String.rev_app (String.rev_app s t) u = String.rev_app t (s +:+ u).
Proof.
  revert t. induction s as [|a s IH]; intros t; simpl; [done|]. by rewrite IH.
Qed.

Lemma string_app_cons (a : ascii) (s t : string) :
  String a s +:+ t = String a (s +:+ t).
Proof. reflexivity. Qed.

Lemma string_app_empty_r (s : string) : s +:+ "" = s.
Proof.
  induction s as [|a s IH]; [done|]. by rewrite string_app_cons, IH.
Qed.

Lemma string_rev_involutive (s : string) : String.rev (String.rev s) = s.
Proof.
  unfold String.rev. rewrite rev_app_rev_app. cbn [String.rev_app].
  apply string_app_empty_r.
Qed.

Lemma string_app_assoc (s t u : string) : (s +:+ t) +:+ u = s +:+ (t +:+ u).
Proof.
  induction s as [|a s IH]; [done|]. by rewrite !string_app_cons, IH.
Qed.

Lemma rev_app_app (s t : string) :
  String.rev_app s t = String.rev s +:+ t.
Proof.
  unfold String.rev. revert t. induction s as [|a s IH]; intros t; simpl; [done|].
  rewrite (IH (String a "")), (IH (String a t)).
  by rewrite string_app_assoc.
Qed.

Lemma rev_app_snoc (s t : string) (c : ascii) :
  String.rev_app (s +:+ String c "") t = String c (String.rev_app s t).
Proof.
  revert t. induction s as [|a s IH]; intros t; [done|].
  rewrite string_app_cons. simpl. by rewrite IH.
Qed.

Lemma lstrip_idempotent (s : string) : PyStr.lstrip (PyStr.lstrip s) = PyStr.lstrip s.
Proof.
  induction s as [|c s IH]; simpl; [done|].
  destruct (PyStr.is_space c) eqn:E; [done|]. simpl. by rewrite E.
Qed.

Lemma lstrip_head (s : string) :
  PyStr.lstrip s = "" ∨ ∃ c rest, PyStr.lstrip s = String c rest ∧ PyStr.is_space c = false.
Proof.
  induction s as [|c s IH]; simpl; [by left|].
  destruct (PyStr.is_space c) eqn:E; [done|]. right. eauto.
Qed.

Lemma lstrip_app (s : string) (c : ascii) (rest : string) :
  PyStr.is_space c = false →
  PyStr.lstrip (s +:+ String c rest) = PyStr.lstrip s +:+ String c rest.
Proof.
  intros Hc. induction s as [|a s IH].
  - change ("" +:+ String c rest) with (String c rest). simpl. by rewrite Hc.
  - rewrite string_app_cons. simpl. by destruct (PyStr.is_space a).
Qed.

(** Trimming on the right keeps a first character that is not a space. *)
Lemma rstrip_head (c : ascii) (rest : string) :
  PyStr.is_space c = false →
  ∃ rest', PyStr.rstrip (String c rest) = String c rest'.
Proof.
  intros Hc. unfold PyStr.rstrip. unfold String.rev at 2. simpl.
  rewrite rev_app_app, lstrip_app by done.
  unfold String.rev at 1. rewrite rev_app_snoc. eauto.
Qed.

Lemma strip_idempotent (s : string) : PyStr.strip (PyStr.strip s) = PyStr.strip s.
Proof.
  unfold PyStr.strip.
  assert (PyStr.lstrip (PyStr.rstrip (PyStr.lstrip s)) = PyStr.rstrip (PyStr.lstrip s))
    as ->.
  { destruct (lstrip_head s) as [->|(c & rest & -> & Hc)]; [done|].
    destruct (rstrip_head c rest Hc) as [rest' ->]. simpl. by rewrite Hc. }
  unfold PyStr.rstrip. by rewrite string_rev_involutive, lstrip_idempotent.
Qed.

(** ** Characters *)

Lemma chars_rev_app (s t : string) (x : ascii) :
  x ∈ chars (String.rev_app s t) ↔ x ∈ chars s ∨ x ∈ chars t.
Proof.
  revert t. induction s as [|c s IH]; intros t; simpl.
  - split; [by right|]. by intros [?%elem_of_nil|?].
  - rewrite IH. simpl. rewrite !elem_of_cons. tauto.
Qed.

Lemma map_chars_lstrip (f : ascii → ascii) (s : string) :
  (∀ c, PyStr.is_space (f c) = PyStr.is_space c) →
  PyStr.lstrip (PyStr.map_chars f s) = PyStr.map_chars f (PyStr.lstrip s).
Proof.
  intros Hf. induction s as [|c s IH]; simpl; [done|].
  rewrite Hf. by destruct (PyStr.is_space c).
Qed.

Lemma map_chars_rev_app (f : ascii → ascii) (s t : string) :
  String.rev_app (PyStr.map_chars f s) (PyStr.map_chars f t)
  = PyStr.map_chars f (String.rev_app s t).
Proof.
  revert t. induction s as [|c s IH]; intros t; simpl; [done|].
  by rewrite <- IH.
Qed.

Lemma map_chars_strip (f : ascii → ascii) (s : string) :
  (∀ c, PyStr.is_space (f c) = PyStr.is_space c) →
  PyStr.strip (PyStr.map_chars f s) = PyStr.map_chars f (PyStr.strip s).
Proof.
  intros Hf. unfold PyStr.strip, PyStr.rstrip, String.rev.
  rewrite map_chars_lstrip by done.
  rewrite (map_chars_rev_app f _ ""), map_chars_lstrip by done.
  by rewrite (map_chars_rev_app f _ "").
Qed.

Lemma map_chars_ext (f g : ascii → ascii) (s : string) :
  (∀ c, f c = g c) → PyStr.map_chars f s = PyStr.map_chars g s.
Proof. intros Hfg. induction s as [|c s IH]; simpl; [done|]. by rewrite Hfg, IH. Qed.

Lemma map_chars_map_chars (f g : ascii → ascii) (s : string) :
  PyStr.map_chars f (PyStr.map_chars g s) = PyStr.map_chars (λ c, f (g c)) s.
Proof. induction s as [|c s IH]; simpl; [done|]. by rewrite IH. Qed.

(** Lower-casing and replacing an underscore by a hyphen neither make nor
    remove white space, and doing both twice is doing both once. *)
Lemma fold_char_facts (c : ascii) :
  let fold_char c :=
    if Ascii.eqb (PyStr.lower_char c) "_" then "-"%char else PyStr.lower_char c in
  PyStr.is_space (fold_char c) = PyStr.is_space c
  ∧ fold_char (fold_char c) = fold_char c.
Proof. destruct c as [[] [] [] [] [] [] [] []]; by vm_compute. Qed.

(** ** White space *)

Lemma is_space_whitespace (c : ascii) : PyStr.is_space c = true ↔ whitespace c.
Proof.
  unfold whitespace.
  assert (PyStr.is_space c
          = bool_decide
              (nat_of_ascii c ∈ [9; 10; 11; 12; 13; 28; 29; 30; 31; 32; 133; 160]))
    as ->.
  { destruct c as [[] [] [] [] [] [] [] []]; by vm_compute. }
  apply bool_decide_eq_true.
Qed.

Lemma is_space_false (c : ascii) : PyStr.is_space c = false ↔ ¬ whitespace c.
Proof.
  rewrite <- is_space_whitespace. by destruct (PyStr.is_space c).
Qed.

Lemma chars_app (s t : string) : chars (s +:+ t) = chars s ++ chars t.
Proof.
  induction s as [|c s IH]; [done|].
  rewrite string_app_cons. simpl. by rewrite IH.
Qed.

Lemma blank_empty : @blank "".
Proof. intros c Hc. by apply elem_of_nil in Hc. Qed.

Lemma blank_cons (c : ascii) (s : string) :
  blank (String c s) ↔ whitespace c ∧ blank s.
Proof.
  unfold blank. simpl. split.
  - intros H. split; [apply H; by left|]. intros x Hx. apply H. by right.
  - intros [Hc Hs] x [->|Hx]%elem_of_cons; [done|by apply Hs].
Qed.

Lemma blank_app (s t : string) : blank (s +:+ t) ↔ blank s ∧ blank t.
Proof.
  unfold blank. rewrite chars_app. split.
  - intros H. split; intros x Hx; apply H, elem_of_app; [by left|by right].
  - intros [Hs Ht] x [Hx|Hx]%elem_of_app; [by apply Hs|by apply Ht].
Qed.

Lemma blank_rev (s : string) : blank (String.rev s) ↔ blank s.
Proof.
  unfold blank, String.rev. split; intros H x Hx.
  - apply H, chars_rev_app. by left.
  - apply chars_rev_app in Hx as [Hx|Hx%elem_of_nil]; [by apply H|done].
Qed.

Lemma string_rev_app (s t : string) :
  String.rev (s +:+ t) = String.rev t +:+ String.rev s.
Proof.
  assert (∀ u, String.rev_app (s +:+ t) u = String.rev_app t (String.rev_app s u))
    as Hrev.
  { induction s as [|c s IH]; intros u; [done|].
    rewrite string_app_cons. simpl. apply IH. }
  unfold String.rev at 1. rewrite Hrev. by rewrite rev_app_app.
Qed.

Lemma lstrip_blank (s : string) : blank s → PyStr.lstrip s = "".
Proof.
  induction s as [|c s IH]; [done|].
  intros [Hc Hs]%blank_cons. simpl.
  apply is_space_whitespace in Hc. rewrite Hc. by apply IH.
Qed.

Lemma lstrip_blank_app (before s : string) :
  blank before → PyStr.lstrip (before +:+ s) = PyStr.lstrip s.
Proof.
  induction before as [|c before IH]; [done|].
  intros [Hc Hb]%blank_cons. rewrite string_app_cons. simpl.
  apply is_space_whitespace in Hc. rewrite Hc. by apply IH.
Qed.

Lemma lstrip_decompose (s : string) :
  ∃ before, s = before +:+ PyStr.lstrip s ∧ blank before.
Proof.
  induction s as [|c s IH]; simpl.
  - exists "". split; [done|apply blank_empty].
  - destruct (PyStr.is_space c) eqn:E.
    + destruct IH as (before & Hs & Hb). exists (String c before).
      rewrite string_app_cons, <- Hs. split; [done|].
      apply blank_cons. split; [by apply is_space_whitespace|done].
    + exists "". split; [done|apply blank_empty].
Qed.

Lemma rstrip_decompose (s : string) :
  ∃ after, s = PyStr.rstrip s +:+ after ∧ blank after.
Proof.
  destruct (lstrip_decompose (String.rev s)) as (before & Hs & Hb).
  exists (String.rev before). split; [|by apply blank_rev].
  unfold PyStr.rstrip. rewrite <- string_rev_app, <- Hs.
  by rewrite string_rev_involutive.
Qed.

(** Trimming removes the white space at the two ends, and no more. *)
Lemma strip_trimmed (s : string) : trimmed_of s (PyStr.strip s).
Proof.
  unfold PyStr.strip.
  destruct (lstrip_decompose s) as (before & Hs & Hb).
  destruct (rstrip_decompose (PyStr.lstrip s)) as (after & Ht & Ha).
  exists before, after. split; [by rewrite <- Ht|].
  split; [done|]. split; [done|]. split.
  - intros c rest Hcore.
    destruct (lstrip_head s) as [Hempty|(c' & rest' & Hl & Hc')].
    + rewrite Hempty in Hcore. done.
    + rewrite Hl in Hcore. destruct (rstrip_head c' rest' Hc') as [rest'' Hr].
      rewrite Hr in Hcore. injection Hcore as -> _. by apply is_space_false.
  - intros front c Hcore.
    apply (f_equal String.rev) in Hcore. unfold PyStr.rstrip in Hcore.
    rewrite string_rev_involutive, string_rev_app in Hcore.
    change (String.rev (String c "") +:+ String.rev front)
      with (String c (String.rev front)) in Hcore.
    destruct (lstrip_head (String.rev (PyStr.lstrip s)))
      as [Hempty|(c' & rest' & Hl & Hc')].
    + rewrite Hempty in Hcore. done.
    + rewrite Hl in Hcore. injection Hcore as -> _. by apply is_space_false.
Qed.

Lemma string_rev_cons (s : string) :
  s ≠ "" → ∃ front c, s = front +:+ String c "".
Proof.
  intros Hne. destruct (String.rev s) as [|c rest] eqn:E.
  - apply (f_equal String.rev) in E. rewrite string_rev_involutive in E. done.
  - exists (String.rev rest), c.
    apply (f_equal String.rev) in E. rewrite string_rev_involutive in E.
    rewrite E. unfold String.rev at 1. simpl. by rewrite rev_app_app.
Qed.

(** The trimmed text of a string is what [strip] returns. *)
Lemma trimmed_of_strip (s core : string) : trimmed_of s core ↔ core = PyStr.strip s.
Proof.
  split; [|intros ->; apply strip_trimmed].
  intros (before & after & -> & Hb & Ha & Hhead & Hlast).
  unfold PyStr.strip. rewrite lstrip_blank_app by done.
  destruct core as [|c rest].
  - change ("" +:+ after) with after. by rewrite lstrip_blank.
  - assert (PyStr.is_space c = false) as Hc.
    { apply is_space_false. by eapply Hhead. }
    rewrite string_app_cons. simpl. rewrite Hc.
    rewrite <- string_app_cons. unfold PyStr.rstrip.
    rewrite string_rev_app, lstrip_blank_app by by apply blank_rev.
    destruct (string_rev_cons (String c rest)) as (front & c' & Hcore); [done|].
    assert (PyStr.is_space c' = false) as Hc'.
    { apply is_space_false. by eapply Hlast. }
    rewrite Hcore, string_rev_app.
    change (String.rev (String c' "") +:+ String.rev front)
      with (String c' (String.rev front)).
    simpl. rewrite Hc'.
    change (String c' (String.rev front))
      with (String.rev (String c' "") +:+ String.rev front).
    by rewrite <- string_rev_app, string_rev_involutive.
Qed.

(** A string is empty after trimming exactly when it has white space only. *)
Lemma strip_blank (s : string) : PyStr.strip s = "" ↔ blank s.
Proof.
  split.
  - intros Hs. destruct (strip_trimmed s) as (before & after & Heq & Hb & Ha & _).
    rewrite Hs in Heq. rewrite Heq. apply blank_app. split; [done|].
    apply blank_app. split; [apply blank_empty|done].
  - intros Hs. unfold PyStr.strip. by rewrite lstrip_blank.
Qed.

(** The normalized name of a group is what [normalize_group_name] returns. *)
Lemma normalized_name_spec (group_name normalized : string) :
  normalized_name group_name normalized
  ↔ normalized = normalize_group_name group_name.
Proof.
  assert (normalize_group_name group_name
          = PyStr.map_chars
              (λ c, if Ascii.eqb c "_" then "-"%char else PyStr.lower_char c)
              (PyStr.strip group_name)) as ->.
  { unfold normalize_group_name, PyStr.replace_char, PyStr.lower.
    rewrite map_chars_map_chars. apply map_chars_ext.
    intros c. destruct c as [[] [] [] [] [] [] [] []]; by vm_compute. }
  unfold normalized_name. split.
  - intros (core & Hcore & ->). apply trimmed_of_strip in Hcore. by subst core.
  - intros ->. exists (PyStr.strip group_name). split; [apply strip_trimmed|done].
Qed.

(** ** Grouping keeps every row *)

Lemma total_row_count_dict_set grouped key (members : list loc) :
  total_row_count (dict_set grouped key members)
    + length (default [] (dict_get grouped key))
  = total_row_count grouped + length members.
Proof.
  unfold total_row_count.
  induction grouped as [|[k old] grouped IH]; simpl; [lia|].
  destruct (String.eqb k key); simpl; lia.
Qed.

Lemma total_row_count_setdefault_append grouped key (l : loc) :
  total_row_count (setdefault_append grouped key l) = S (total_row_count grouped).
Proof.
  unfold setdefault_append.
  destruct (dict_get grouped key) as [members|] eqn:G.
  - pose proof (total_row_count_dict_set grouped key (members ++ [l])) as H.
    rewrite G, length_app in H. simpl in H. lia.
  - pose proof (total_row_count_dict_set grouped key [l]) as H.
    rewrite G in H. simpl in H. lia.
Qed.

Lemma total_row_count_fold h group_by rows grouped :
  total_row_count
    (fold_left
       (fun acc l => setdefault_append acc (get_group_key (deref h l) group_by) l)
       rows grouped)
  = total_row_count grouped + length rows.
Proof.
  revert grouped. induction rows as [|l rows IH]; intros grouped; simpl; [lia|].
  rewrite IH, total_row_count_setdefault_append. lia.
Qed.

(** C8: for every row list and every grouping mode, the row counts of the
    groups that [group_rows] builds add up to the number of input rows. *)
Theorem group_rows_total_row_count h (rows : list loc) (group_by : string) :
  total_row_count (group_rows h rows group_by) = length rows.
Proof. unfold group_rows. by rewrite total_row_count_fold. Qed.

(** ** The group key *)

Lemma truthy_spec (s : string) : PyStr.truthy s = true ↔ s ≠ "".
Proof.
  unfold PyStr.truthy. destruct (String.eqb s "") eqn:E; simpl.
  - apply String.eqb_eq in E. split; [done|congruence].
  - apply String.eqb_neq in E. done.
Qed.

Lemma stripped_text_spec v text :
  stripped_text v = Some text ↔ trimmed_text v text.
Proof.
  unfold stripped_text, trimmed_text. split.
  - destruct v; try done.
    destruct (PyStr.truthy (PyStr.strip s)) eqn:E; [|done].
    intros [= <-]. apply truthy_spec in E. eauto.
  - intros (raw & -> & -> & Hne). apply truthy_spec in Hne. by rewrite Hne.
Qed.

Lemma stripped_text_none v :
  stripped_text v = None ↔ ¬ ∃ text, trimmed_text v text.
Proof.
  split.
  - intros E [text H]. apply stripped_text_spec in H. congruence.
  - intros H. destruct (stripped_text v) as [text|] eqn:E; [|done].
    exfalso. apply H. exists text. by apply stripped_text_spec.
Qed.

(** C6, as amended: with grouping disabled the key is "all"; otherwise it
    is the trimmed [category] when [category] is a string that is non-empty
    after trimming, else the trimmed [metadata.category] when that is such
    a string, else "uncategorized". *)
Theorem get_group_key_resolution r (group_by : string) :
  (group_by = "none" → get_group_key r group_by = "all")
  ∧ (group_by ≠ "none" →
     (∀ text, trimmed_text (row_get r "category") text →
              get_group_key r group_by = text)
     ∧ ((¬ ∃ text, trimmed_text (row_get r "category") text) →
        (∀ text, trimmed_text (metadata_category r) text →
                 get_group_key r group_by = text)
        ∧ ((¬ ∃ text, trimmed_text (metadata_category r) text) →
           get_group_key r group_by = "uncategorized"))).
Proof.
  unfold get_group_key. split.
  - intros ->. done.
  - intros Hmode. apply String.eqb_neq in Hmode. rewrite Hmode.
    split.
    + intros text H. apply stripped_text_spec in H. by rewrite H.
    + intros Hcat. apply stripped_text_none in Hcat. rewrite Hcat.
      unfold metadata_category. split.
      * intros text H. apply stripped_text_spec in H.
        destruct (row_get r "metadata"); simpl in H; try done.
        by rewrite H.
      * intros Hmeta. apply stripped_text_none in Hmeta.
        destruct (row_get r "metadata"); try done.
        by rewrite Hmeta.
Qed.

(** ** Eligibility *)

Lemma dict_get_elem_of {V} (d : dict V) key (x : V) :
  NoDup (map fst d) → dict_get d key = Some x ↔ (key, x) ∈ d.
Proof.
  induction d as [|[k y] d IH]; simpl; intros Hnd.
  - split; [done|]. by intros ?%elem_of_nil.
  - apply NoDup_cons in Hnd as [Hk Hnd].
    rewrite elem_of_cons. destruct (String.eqb k key) eqn:E.
    + apply String.eqb_eq in E as ->. split.
      * intros [= ->]. by left.
      * intros [[= ->]|Hin]; [done|].
        exfalso. apply Hk. apply list_elem_of_fmap. by exists (key, x).
    + apply String.eqb_neq in E. rewrite IH by done. split; [by right|].
      intros [[= -> ->]|Hin]; done.
Qed.

Lemma requirements_NoDup : NoDup (map fst requirements).
Proof. apply (bool_decide_unpack _). by vm_compute. Qed.

Lemma has_value_usable r key : has_value r key = true ↔ usable (row_get r key).
Proof.
  unfold has_value, usable. destruct (row_get r key) as [| | | |s|items| | |] eqn:E;
    try (split; [intros _; repeat split; congruence | done]).
  - split; [done|]. by intros [? _].
  - rewrite negb_true_iff, String.eqb_neq, strip_blank. split.
    + intros H. repeat split; try done. by intros s' [= <-].
    + intros (_ & H & _). by apply H.
  - destruct items; simpl.
    + split; [done|]. by intros (_ & _ & ?).
    + split; [|done]. intros _. repeat split; congruence.
Qed.

(** The table of [pick_metric_names] holds the fields that the metrics
    require. *)
Lemma requirements_required_fields (metric : string) :
  dict_get requirements metric = required_fields metric.
Proof.
  unfold requirements, required_fields. cbn [dict_get].
  by rewrite !(String.eqb_sym _ metric).
Qed.

(** C4: a metric is in the eligible set of a group exactly when every row
    of the group has a usable value for every field the metric requires
    (the fields of the five metrics are those of [required_fields]), usable
    meaning not null, not a string that has white space only and not an
    empty list; every other value, a zero or [False] included, is usable. *)
Theorem available_metrics_eligible (rows : list row) (metric : string) :
  (metric ∈ available_metrics rows ↔ eligible rows metric)
  ∧ (∀ r key, has_value r key = true ↔ usable (row_get r key))
  ∧ (∀ v, usable v ↔ v ≠ VNone ∧ (∀ s, v = VStr s → ¬ blank s) ∧ v ≠ VList [])
  ∧ (∀ n, usable (@VInt float n)) ∧ (∀ b, usable (@VBool float b))
  ∧ (∀ x : float, usable (VFloat x)).
Proof.
  split; [|split; [apply has_value_usable|]; split; [done|];
           unfold usable; repeat split; intros; congruence].
  unfold available_metrics, eligible. rewrite <- requirements_required_fields.
  rewrite list_elem_of_fmap. split.
  - intros ([name keys] & -> & Hin). cbn [fst].
    apply list_elem_of_In, filter_In in Hin as [Hin Hall]. cbn [snd] in Hall.
    exists keys. split.
    + apply dict_get_elem_of; [apply requirements_NoDup|]. by apply list_elem_of_In.
    + intros r Hr key Hkey. apply has_value_usable.
      rewrite forallb_forall in Hall.
      apply list_elem_of_In, Hall in Hr. rewrite forallb_forall in Hr.
      by apply Hr, list_elem_of_In.
  - intros (keys & Hget & Hall).
    apply dict_get_elem_of in Hget; [|apply requirements_NoDup].
    exists (metric, keys). split; [done|].
    apply list_elem_of_In, filter_In. split; [by apply list_elem_of_In|].
    cbn [snd]. apply forallb_forall. intros r Hr. apply forallb_forall.
    intros key Hkey. apply has_value_usable.
    apply Hall; by apply list_elem_of_In.
Qed.

(** ** Metric selection *)

Lemma nonempty_spec {A} (l : list A) : nonempty l = true ↔ l ≠ [].
Proof. destruct l; simpl; split; congruence. Qed.

Lemma nonempty_false {A} (l : list A) : nonempty l = false ↔ l = [].
Proof. destruct l; simpl; split; congruence. Qed.

Lemma List_filter_decide {A} (P : A → Prop) `{!∀ x, Decision (P x)}
    (f : A → bool) (l : list A) :
  (∀ x, f x = bool_decide (P x)) → List.filter f l = filter P l.
Proof.
  intros Hf. induction l as [|x l IH]; simpl; [done|].
  rewrite Hf, filter_cons, IH. by destruct (decide (P x)) as [HP|HP];
    [rewrite bool_decide_eq_true_2|rewrite bool_decide_eq_false_2].
Qed.

Lemma dict_mem_spec {V} (d : dict V) key :
  dict_mem d key = true ↔ key ∈ map fst d.
Proof.
  unfold dict_mem. induction d as [|[k x] d IH]; simpl.
  - split; [done|]. by intros ?%elem_of_nil.
  - rewrite elem_of_cons. destruct (String.eqb k key) eqn:E.
    + apply String.eqb_eq in E as ->. split; [by left|done].
    + apply String.eqb_neq in E. rewrite IH. split; [by right|].
      by intros [->|].
Qed.

Lemma requirements_known metric :
  negb (dict_mem requirements metric) = bool_decide (metric ∉ known_metrics).
Proof.
  destruct (dict_mem requirements metric) eqn:E; simpl; symmetry.
  - apply bool_decide_eq_false_2. apply dict_mem_spec in E.
    intros Hout. apply Hout. exact E.
  - apply bool_decide_eq_true_2. intros Hin.
    change known_metrics with (map fst requirements) in Hin.
    apply dict_mem_spec in Hin. congruence.
Qed.

Lemma filter_nil_Forall {A} (P : A → Prop) `{!∀ x, Decision (P x)} (l : list A) :
  filter P l = [] ↔ Forall (λ x, ¬ P x) l.
Proof.
  induction l as [|x l IH]; [by rewrite filter_nil|].
  rewrite filter_cons, Forall_cons. destruct (decide (P x)); [|by rewrite IH; tauto].
  split; [done|]. by intros [? _].
Qed.

(** The text that [", ".join] builds lists the names. *)
Lemma join_enumerates (names : list string) :
  enumerates names (PyStr.join ", " names).
Proof.
  induction names as [|name names IH]; [constructor|].
  destruct names as [|next names]; [constructor|].
  change (PyStr.join ", " (name :: next :: names))
    with (name +:+ ", " +:+ PyStr.join ", " (next :: names)).
  by constructor.
Qed.

(** Every name that a text lists occurs in it. *)
Lemma enumerates_occurs (names : list string) (text name : string) :
  enumerates names text → name ∈ names → occurs_in name text.
Proof.
  induction 1 as [|x|x next names text Henum IH]; intros Hin.
  - by apply elem_of_nil in Hin.
  - apply list_elem_of_singleton in Hin as ->. exists "", "".
    by rewrite string_app_empty_r.
  - apply elem_of_cons in Hin as [->|Hin].
    + by exists "", (", " +:+ text).
    + destruct (IH Hin) as (before & after & ->).
      exists (x +:+ ", " +:+ before), after. by rewrite !string_app_assoc.
Qed.

(** C2: for a non-empty request, a name that is not one of the five known
    identifiers makes the selection fail with the error whose message lists,
    after "Unsupported metrics: ", the offending names, sorted, and after
    "Supported metrics: " the five supported names, sorted; failing that, a
    requested metric outside the eligible set makes it fail with the error
    whose message lists the offending names, in the order of the request;
    otherwise the request is returned as it is, with the eligible set. *)
Theorem pick_metric_names_requested (rows : list row)
    (requested : list string) (group_name : string) :
  requested ≠ [] →
  let unsupported := filter (λ m, m ∉ known_metrics) requested in
  let ineligible := filter (λ m, m ∉ available_metrics rows) requested in
  let supported :=
    "context_recall, factual_correctness, faithfulness, response_relevancy, semantic_similarity" in
  (Exists (λ m, m ∉ known_metrics) requested →
   ∃ listing,
     pick_metric_names rows (Some requested) group_name
     = Raise (ValueError ("Unsupported metrics: " +:+ listing
                          +:+ ". Supported metrics: " +:+ supported))
     ∧ enumerates (PyStr.sorted unsupported) listing
     ∧ (∀ m, m ∈ requested → m ∉ known_metrics → occurs_in m listing))
  ∧ (Forall (λ m, m ∈ known_metrics) requested →
     Exists (λ m, m ∉ available_metrics rows) requested →
     ∃ listing,
       pick_metric_names rows (Some requested) group_name
       = Raise (ValueError
                  ("Requested metrics are missing required fields in at least one row: "
                   +:+ listing))
       ∧ enumerates ineligible listing
       ∧ (∀ m, m ∈ requested → m ∉ available_metrics rows → occurs_in m listing))
  ∧ (Forall (λ m, m ∈ known_metrics) requested →
     Forall (λ m, m ∈ available_metrics rows) requested →
     pick_metric_names rows (Some requested) group_name
     = Ok (requested, available_metrics rows))
  ∧ Sorted String.le (PyStr.sorted unsupported)
  ∧ PyStr.sorted unsupported ≡ₚ unsupported
  ∧ Sorted String.le (PyStr.sorted known_metrics)
  ∧ PyStr.sorted known_metrics ≡ₚ known_metrics
  ∧ enumerates (PyStr.sorted known_metrics) supported
  ∧ (∀ m, m ∈ known_metrics → occurs_in m supported).
Proof.
  intros Hne unsupported ineligible supported.
  assert (Hsupported : PyStr.join ", " (PyStr.sorted known_metrics) = supported)
    by by vm_compute.
  assert (Hcode :
    pick_metric_names rows (Some requested) group_name
    = if nonempty unsupported
      then Raise (ValueError
                    ("Unsupported metrics: "
                     +:+ PyStr.join ", " (PyStr.sorted unsupported)
                     +:+ ". Supported metrics: " +:+ supported))
      else if nonempty ineligible
      then Raise (ValueError
                    ("Requested metrics are missing required fields in at least one row: "
                     +:+ PyStr.join ", " ineligible))
      else Ok (requested, available_metrics rows)).
  { unfold pick_metric_names.
    change (default [] (Some requested)) with requested.
    apply nonempty_spec in Hne. rewrite Hne.
    rewrite (List_filter_decide (λ m, m ∉ known_metrics))
      by apply requirements_known.
    rewrite (List_filter_decide (λ m, m ∉ available_metrics rows)).
    - fold unsupported ineligible.
      change (map fst requirements) with known_metrics. by rewrite Hsupported.
    - intros m. by destruct (decide (m ∈ available_metrics rows));
        [rewrite bool_decide_eq_true_2, bool_decide_eq_false_2 by tauto
        |rewrite bool_decide_eq_false_2, bool_decide_eq_true_2 by tauto]. }
  assert (Hun : Forall (λ m, m ∈ known_metrics) requested → unsupported = []).
  { intros H. apply filter_nil_Forall. eapply Forall_impl; [exact H|]. tauto. }
  assert (Hlisted : enumerates (PyStr.sorted known_metrics) supported).
  { rewrite <- Hsupported. apply join_enumerates. }
  split_and!.
  - intros Hex. exists (PyStr.join ", " (PyStr.sorted unsupported)).
    split; [|split; [apply join_enumerates|]].
    + rewrite Hcode.
      destruct (nonempty unsupported) eqn:E; [done|].
      apply nonempty_false, filter_nil_Forall in E.
      apply Exists_exists in Hex as (m & Hm & Hbad).
      rewrite Forall_forall in E. by destruct (E m).
    + intros m Hm Hbad.
      apply (enumerates_occurs (PyStr.sorted unsupported)); [apply join_enumerates|].
      unfold PyStr.sorted. rewrite merge_sort_Permutation.
      by apply list_elem_of_filter.
  - intros Hall Hex. exists (PyStr.join ", " ineligible).
    split; [|split; [apply join_enumerates|]].
    + rewrite Hcode, (Hun Hall). simpl.
      destruct (nonempty ineligible) eqn:E; [done|].
      apply nonempty_false, filter_nil_Forall in E.
      apply Exists_exists in Hex as (m & Hm & Hbad).
      rewrite Forall_forall in E. by destruct (E m).
    + intros m Hm Hbad.
      apply (enumerates_occurs ineligible); [apply join_enumerates|].
      by apply list_elem_of_filter.
  - intros Hall Hel. rewrite Hcode, (Hun Hall). simpl.
    assert (ineligible = []) as ->; [|done].
    apply filter_nil_Forall. eapply Forall_impl; [exact Hel|]. tauto.
  - apply Sorted_merge_sort; apply _.
  - apply merge_sort_Permutation.
  - apply Sorted_merge_sort; apply _.
  - apply merge_sort_Permutation.
  - exact Hlisted.
  - intros m Hm. apply (enumerates_occurs _ _ _ Hlisted).
    unfold PyStr.sorted. by rewrite merge_sort_Permutation.
Qed.

Lemma List_filter_sublist {A} (f : A → bool) (l : list A) :
  List.filter f l `sublist_of` l.
Proof.
  induction l as [|x l IH]; simpl; [done|].
  destruct (f x); by constructor.
Qed.

Lemma available_metrics_sublist (rows : list row) :
  available_metrics rows `sublist_of` known_metrics.
Proof.
  unfold available_metrics. change known_metrics with (map fst requirements).
  apply (fmap_sublist fst), List_filter_sublist.
Qed.

Lemma List_filter_elem_of (available preference : list string) :
  List.filter (λ m, bool_decide (m ∈ available)) preference
  = filter (λ m, m ∈ available) preference.
Proof. by apply List_filter_decide. Qed.

(** C5: with no requested metrics, the default preference is looked up
    under the normalized name of the group, which is the name trimmed, in
    lower case and with a hyphen for every underscore ("qa", "work-search"
    and "work" have a preference); the preference is filtered to the
    eligible metrics and returned, in preference order, when the result is
    non-empty; otherwise the eligible metrics are returned, in declaration
    order; the eligible metrics are the second component. *)
Theorem pick_metric_names_auto (rows : list row)
    (requested : option (list string)) (group_name : string) :
  requested = None ∨ requested = Some [] →
  let available := available_metrics rows in
  ∃ normalized,
    normalized_name group_name normalized
    ∧ (∀ other, normalized_name group_name other → other = normalized)
    ∧ pick_metric_names rows requested group_name
      = Ok (match dict_get default_preferences normalized with
            | Some preference =>
                let preferred := filter (λ m, m ∈ available) preference in
                if decide (preferred = []) then available else preferred
            | None => available
            end,
            available)
    ∧ available `sublist_of` known_metrics.
Proof.
  intros Hreq available. exists (normalize_group_name group_name).
  split; [by apply normalized_name_spec|].
  split; [intros other Hother; by apply normalized_name_spec|].
  split; [|apply available_metrics_sublist].
  assert (nonempty (default [] requested) = false) as Hauto.
  { by destruct Hreq as [-> | ->]. }
  unfold pick_metric_names. rewrite Hauto.
  unfold get_default_metric_preferences, default_preferences.
  fold available. cbn [dict_get].
  set (normalized := normalize_group_name group_name).
  rewrite !(String.eqb_sym _ normalized).
  destruct (String.eqb normalized "qa");
    [|destruct (String.eqb normalized "work-search"); cbn [orb];
      [|destruct (String.eqb normalized "work")]];
    try done; cbn [nonempty]; rewrite List_filter_elem_of;
    (match goal with
     | |- context [filter ?P ?l] =>
         destruct (filter P l) eqn:E; [by rewrite decide_True|]
     end);
    cbn [nonempty]; by rewrite decide_False.
Qed.

(** ** The heap during scoring *)

Lemma deref_app_l h (copies : list row) (l : loc) :
  l < length h → deref (h ++ copies) l = deref h l.
Proof. intros Hl. unfold deref. by rewrite lookup_app_l. Qed.

Lemma map_deref_app_l h (copies : list row) (rows : list loc) :
  Forall (λ l, l < length h) rows →
  map (deref (h ++ copies)) rows = map (deref h) rows.
Proof.
  intros Hrows. apply map_ext_in. intros l Hl. apply deref_app_l.
  rewrite Forall_forall in Hrows. by apply Hrows, list_elem_of_In.
Qed.

(** The comprehension allocates one new dict per row, after the heap. *)
Lemma copy_rows_shape h (rows : list loc) :
  ∃ copies, copy_rows h rows = (h ++ copies, seq (length h) (length rows))
            ∧ length copies = length rows.
Proof.
  revert h. induction rows as [|l rows IH]; intros h; simpl.
  - exists []. by rewrite app_nil_r.
  - destruct (IH (h ++ [normalize_row (deref h l)])) as (copies & -> & Hlen).
    exists (normalize_row (deref h l) :: copies).
    rewrite <- app_assoc, length_app. simpl.
    rewrite Nat.add_1_r. split; [done|]. by rewrite Hlen.
Qed.

Lemma copy_rows_contents h (rows : list loc) :
  Forall (λ l, l < length h) rows →
  copy_rows h rows
  = (h ++ map (λ l, normalize_row (deref h l)) rows, seq (length h) (length rows)).
Proof.
  revert h. induction rows as [|l rows IH]; intros h Hrows; simpl.
  - by rewrite app_nil_r.
  - apply Forall_cons in Hrows as [Hl Hrows].
    rewrite IH.
    + rewrite <- app_assoc, length_app. simpl. rewrite Nat.add_1_r.
      do 3 f_equal. apply map_ext_in. intros l' Hl'.
      rewrite deref_app_l; [done|].
      rewrite Forall_forall in Hrows. by apply Hrows, list_elem_of_In.
    + eapply Forall_impl; [exact Hrows|].
      intros l' Hl'. cbn beta in *. rewrite length_app. lia.
Qed.

(** Writing one key on every new dict. *)
Lemma set_item_fold_seq h (copies : list row) key v :
  fold_left (λ h' l, set_item h' l key v) (seq (length h) (length copies))
    (h ++ copies)
  = h ++ map (λ r, dict_set r key v) copies.
Proof.
  revert h. induction copies as [|c copies IH]; intros h; simpl; [done|].
  unfold set_item at 2.
  replace (alter (λ r, dict_set r key v) (length h) (h ++ c :: copies))
    with ((h ++ [dict_set c key v]) ++ copies).
  - specialize (IH (h ++ [dict_set c key v])).
    rewrite length_app in IH. simpl in IH. rewrite Nat.add_1_r in IH.
    rewrite IH. by rewrite <- app_assoc.
  - rewrite <- app_assoc. simpl.
    pose proof (alter_app_r (λ r, dict_set r key v) h (c :: copies) 0) as H.
    rewrite Nat.add_0_r in H. by rewrite H.
Qed.

(** Merging the scores writes on the new dicts only, and raises exactly
    when the scorer returned more records than there are rows. *)
Lemma merge_scores_shape h name (metric_rows : list row) :
  ∀ (copies : list row) (index : nat),
    ∃ copies',
      fst (merge_scores (h ++ copies) (seq (length h) (length copies))
             name index metric_rows) = h ++ copies'
      ∧ length copies' = length copies
      ∧ (index + length metric_rows ≤ length copies →
         snd (merge_scores (h ++ copies) (seq (length h) (length copies))
                name index metric_rows) = Ok tt).
Proof.
  induction metric_rows as [|metric_row rest IH]; intros copies index; simpl.
  - by exists copies.
  - destruct (decide (index < length copies)) as [Hlt|Hge].
    + rewrite lookup_seq_lt by done. unfold set_item.
      rewrite alter_app_r.
      set (copies1 :=
             alter (λ r, dict_set r name (row_get metric_row name)) index copies).
      assert (length copies1 = length copies) as Hlen by apply length_alter.
      destruct (IH copies1 (S index)) as (copies' & Hfst & Hlen' & Hok).
      rewrite Hlen in Hfst, Hok. exists copies'.
      split; [done|]. split; [lia|]. intros Hle. apply Hok. lia.
    + rewrite lookup_seq_ge by lia. exists copies. simpl.
      split; [done|]. split; [done|]. lia.
Qed.

(** ** The loop of [score_rows] *)

Context (float_of_int : Z → string + float)
        (fmean : list float → string + float).
Context {Metric : Type}
        (name_attr : Metric → option string) (class_name : Metric → string).
Context {World : Type}
        (evaluate : World → list row → Metric → World * @scorer_outcome float).
Context (construct : string → Metric).

Local Abbreviation metric_name := (metric_name name_attr class_name).
Local Abbreviation score_records := (score_records float_of_int fmean).
Local Abbreviation metric_result := (metric_result float_of_int fmean).
Local Abbreviation metric_results :=
  (metric_results float_of_int fmean name_attr class_name evaluate).
Local Abbreviation numeric_scores := (@numeric_scores float).
Local Abbreviation float_of := (float_of float_of_int).
Local Abbreviation score_step :=
  (score_step float_of_int fmean name_attr class_name evaluate).
Local Abbreviation score_loop :=
  (score_loop float_of_int fmean name_attr class_name evaluate).
Local Abbreviation score_rows :=
  (score_rows float_of_int fmean name_attr class_name evaluate).
Local Abbreviation scorer_outcomes := (scorer_outcomes evaluate).
Local Abbreviation numeric_values := (numeric_values float_of_int).
Local Abbreviation score_rows_init := (@score_rows_init float World).
Local Abbreviation process_group :=
  (process_group float_of_int fmean name_attr class_name evaluate construct).

Implicit Types (st : @scoring float World) (metric : Metric)
  (metrics : list Metric) (rows scored : list nat).

(** [score_metric] is the scorer call followed by [metric_result]. *)
Lemma score_metric_result (w : World) (contents : list row) metric :
  score_metric float_of_int fmean name_attr class_name evaluate w contents metric
  = (fst (evaluate w contents metric),
     metric_result (metric_name metric) (snd (evaluate w contents metric))).
Proof.
  unfold score_metric. by destruct (evaluate _ _ _) as [w' [message|records]].
Qed.

(** What one iteration does, by what [score_metric] does. *)
Lemma score_step_outcome rows scored st metric :
  let name := metric_name metric in
  let call := evaluate (sc_world st) (map (deref (sc_heap st)) rows) metric in
  let st' := fst (score_step rows scored st metric) in
  sc_world st' = fst call
  ∧ match metric_result name (snd call) with
    | inl message =>
        snd (score_step rows scored st metric) = Ok tt
        ∧ sc_heap st' = set_all_none (sc_heap st) scored name
        ∧ sc_summary st' = sc_summary st
        ∧ sc_failures st' = <[name := message]> (sc_failures st)
    | inr (metric_rows, average) =>
        sc_heap st' = fst (merge_scores (sc_heap st) scored name 0 metric_rows)
        ∧ sc_failures st' = sc_failures st
        ∧ match snd (merge_scores (sc_heap st) scored name 0 metric_rows) with
          | Ok _ =>
              snd (score_step rows scored st metric) = Ok tt
              ∧ sc_summary st'
                = match average with
                  | Some a => <[name := a]> (sc_summary st)
                  | None => sc_summary st
                  end
          | Raise e =>
              snd (score_step rows scored st metric) = Raise e
              ∧ sc_summary st' = sc_summary st
          end
    end.
Proof.
  intros name call st'. subst st' call name.
  unfold score_step. rewrite score_metric_result.
  destruct (evaluate _ _ _) as [w' outcome]. cbn [fst snd].
  destruct (metric_result _ outcome) as [message|[metric_rows average]]; simpl;
    [done|].
  destruct (merge_scores _ _ _ _ _) as [h' [[]|e]]; simpl; done.
Qed.

(** An iteration keeps the old part of the heap and the number of copies. *)
Lemma score_step_shape rows h (copies : list row) st metric :
  sc_heap st = h ++ copies →
  ∃ copies',
    sc_heap (fst (score_step rows (seq (length h) (length copies)) st metric))
    = h ++ copies'
    ∧ length copies' = length copies.
Proof.
  intros Hheap.
  destruct (score_step_outcome rows (seq (length h) (length copies)) st metric)
    as [_ Hcase].
  destruct (metric_result _ (snd (evaluate _ _ _)))
    as [message|[metric_rows average]].
  - destruct Hcase as (_ & -> & _). rewrite Hheap. unfold set_all_none.
    rewrite set_item_fold_seq. eexists. split; [done|]. by rewrite length_map.
  - destruct Hcase as (-> & _). rewrite Hheap.
    destruct (merge_scores_shape h (metric_name metric) metric_rows
                copies 0) as (copies' & Hfst & Hlen & _).
    by exists copies'.
Qed.

(** An iteration for another name leaves the entries of a name alone. *)
Lemma score_step_other rows scored st metric (key : string) :
  metric_name metric ≠ key →
  sc_summary (fst (score_step rows scored st metric)) !! key = sc_summary st !! key
  ∧ sc_failures (fst (score_step rows scored st metric)) !! key
    = sc_failures st !! key.
Proof.
  intros Hne.
  destruct (score_step_outcome rows scored st metric) as [_ Hcase].
  destruct (metric_result _ (snd (evaluate _ _ _)))
    as [message|[metric_rows average]].
  - destruct Hcase as (_ & _ & -> & ->). by rewrite lookup_insert_ne.
  - destruct Hcase as (_ & -> & Hcase). split; [|done].
    destruct (snd (merge_scores _ _ _ _ _)) as [?|e].
    + destruct Hcase as [_ ->].
      destruct average; [by rewrite lookup_insert_ne|done].
    + by destruct Hcase as [_ ->].
Qed.

Lemma score_loop_app rows scored st (pre post : list Metric) :
  score_loop rows scored st (pre ++ post)
  = match score_loop rows scored st pre with
    | (st', Ok _) => score_loop rows scored st' post
    | (st', Raise e) => (st', Raise e)
    end.
Proof.
  revert st. induction pre as [|metric pre IH]; intros st; simpl; [done|].
  destruct (score_step rows scored st metric) as [st' [[]|e]]; [apply IH|done].
Qed.

Lemma score_loop_shape rows h (copies : list row) metrics :
  ∀ st, sc_heap st = h ++ copies →
    ∃ copies',
      sc_heap (fst (score_loop rows (seq (length h) (length copies)) st metrics))
      = h ++ copies'
      ∧ length copies' = length copies.
Proof.
  revert copies. induction metrics as [|metric metrics IH]; intros copies st Hheap; simpl.
  - by exists copies.
  - destruct (score_step_shape rows h copies st metric Hheap) as (copies1 & H1 & Hlen1).
    destruct (score_step rows (seq (length h) (length copies)) st metric)
      as [st1 [[]|e]]; simpl in *.
    + destruct (IH copies1 st1 H1) as (copies' & H' & Hlen').
      rewrite Hlen1 in H'. exists copies'. split; [done|lia].
    + by exists copies1.
Qed.

Lemma score_loop_other rows scored (key : string) metrics :
  key ∉ map metric_name metrics →
  ∀ st,
    sc_summary (fst (score_loop rows scored st metrics)) !! key = sc_summary st !! key
    ∧ sc_failures (fst (score_loop rows scored st metrics)) !! key
      = sc_failures st !! key.
Proof.
  induction metrics as [|metric metrics IH]; intros Hkey st; simpl; [done|].
  simpl in Hkey. apply not_elem_of_cons in Hkey as [Hne Hkey].
  destruct (score_step_other rows scored st metric key) as [Hs Hf]; [done|].
  destruct (score_step rows scored st metric) as [st1 [[]|e]]; simpl in *; [|done].
  destruct (IH Hkey st1) as [Hs' Hf']. by rewrite Hs', Hf'.
Qed.

Lemma length_scorer_outcomes (w : World) (contents : list row) metrics :
  length (scorer_outcomes w contents metrics) = length metrics.
Proof.
  revert w. induction metrics as [|metric metrics IH]; intros w; simpl; [done|].
  destruct (evaluate w contents metric) as [w' outcome]. simpl. by rewrite IH.
Qed.

(** The scorer calls of a prefix that completes, seen from outside. *)
Lemma score_loop_outcomes rows h (pre rest : list Metric) :
  Forall (λ l, l < length h) rows →
  ∀ (copies : list row) st st1,
    sc_heap st = h ++ copies →
    score_loop rows (seq (length h) (length copies)) st pre = (st1, Ok tt) →
    scorer_outcomes (sc_world st) (map (deref h) rows) (pre ++ rest)
    = scorer_outcomes (sc_world st) (map (deref h) rows) pre
      ++ scorer_outcomes (sc_world st1) (map (deref h) rows) rest.
Proof.
  intros Hrows. induction pre as [|metric pre IH]; intros copies st st1 Hheap Hloop.
  - simpl in *. by injection Hloop as <-.
  - simpl in Hloop. cbn [app scorer_outcomes].
    destruct (score_step_outcome rows (seq (length h) (length copies)) st metric)
      as [Hworld _].
    destruct (score_step_shape rows h copies st metric Hheap) as (copies1 & H1 & Hlen1).
    rewrite Hheap, map_deref_app_l in Hworld by done.
    destruct (score_step rows (seq (length h) (length copies)) st metric)
      as [st2 [[]|e]]; [|done].
    simpl in Hworld, H1.
    destruct (evaluate (sc_world st) (map (deref h) rows) metric) as [w2 outcome].
    simpl in Hworld. subst w2. rewrite <- Hlen1 in Hloop.
    cbn [app]. f_equal. by apply (IH copies1 st2 st1).
Qed.

(** The entries of a metric whose name no other metric of the list has. *)
Lemma score_loop_lookup rows h (copies : list row)
    (pre post : list Metric) metric st0 st :
  Forall (λ l, l < length h) rows →
  sc_heap st0 = h ++ copies →
  metric_name metric ∉ map metric_name pre →
  metric_name metric ∉ map metric_name post →
  score_loop rows (seq (length h) (length copies)) st0 (pre ++ metric :: post)
  = (st, Ok tt) →
  ∃ outcome,
    scorer_outcomes (sc_world st0) (map (deref h) rows) (pre ++ metric :: post)
      !! length pre = Some outcome
    ∧ match metric_result (metric_name metric) outcome with
      | inl message =>
          sc_failures st !! metric_name metric = Some message
          ∧ sc_summary st !! metric_name metric
            = sc_summary st0 !! metric_name metric
      | inr (metric_rows, average) =>
          sc_failures st !! metric_name metric
          = sc_failures st0 !! metric_name metric
          ∧ sc_summary st !! metric_name metric
            = match average with
              | Some a => Some a
              | None => sc_summary st0 !! metric_name metric
              end
      end.
Proof.
  intros Hrows Hheap Hpre Hpost Hloop.
  rewrite score_loop_app in Hloop.
  destruct (score_loop_shape rows h copies pre st0 Hheap) as (copies1 & H1 & Hlen1).
  destruct (score_loop_other rows (seq (length h) (length copies))
              (metric_name metric) pre Hpre st0) as [Hs1 Hf1].
  destruct (score_loop rows (seq (length h) (length copies)) st0 pre)
    as [st1 [[]|e]] eqn:Epre; [|done].
  simpl in H1, Hs1, Hf1.
  rewrite (score_loop_outcomes rows h pre (metric :: post) Hrows copies st0 st1)
    by done.
  rewrite lookup_app_r by (rewrite length_scorer_outcomes; lia).
  rewrite length_scorer_outcomes, Nat.sub_diag.
  simpl in Hloop. cbn [scorer_outcomes].
  rewrite <- Hlen1 in Hloop.
  destruct (score_step_outcome rows (seq (length h) (length copies1)) st1 metric)
    as [_ Hcase].
  destruct (score_step_shape rows h copies1 st1 metric H1) as (copies2 & H2 & Hlen2).
  rewrite H1, map_deref_app_l in Hcase by done.
  destruct (score_step rows (seq (length h) (length copies1)) st1 metric)
    as [st2 [[]|e]] eqn:Estep; [|done].
  simpl in Hcase, H2.
  destruct (score_loop_other rows (seq (length h) (length copies1))
              (metric_name metric) post Hpost st2) as [Hs2 Hf2].
  rewrite Hloop in Hs2, Hf2. simpl in Hs2, Hf2.
  destruct (evaluate (sc_world st1) (map (deref h) rows) metric) as [w2 outcome].
  exists outcome. split; [done|]. cbn [fst snd] in Hcase.
  destruct (metric_result (metric_name metric) outcome)
    as [message|[metric_rows average]].
  - destruct Hcase as (_ & _ & Hs & Hf).
    rewrite Hs2, Hf2, Hs, Hf, lookup_insert_eq. by rewrite Hs1.
  - destruct Hcase as (_ & Hf & Hcase).
    rewrite Hs2, Hf2, Hf. split; [done|].
    destruct (snd (merge_scores _ _ _ _ _)) as [?|e]; [|by destruct Hcase].
    destruct Hcase as [_ ->].
    destruct average; [by rewrite lookup_insert_eq|done].
Qed.

(** ** Summary and failures after [score_rows] *)

Lemma score_rows_unfold (w : World) h rows metrics :
  ∃ copies : list row,
    length copies = length rows
    ∧ (Forall (λ l, l < length h) rows →
       copies = map (λ l, normalize_row (deref h l)) rows)
    ∧ score_rows_init w h rows
      = (Scoring w (h ++ copies) ∅ ∅, seq (length h) (length copies))
    ∧ score_rows w h rows metrics
      = match score_loop rows (seq (length h) (length copies))
                (Scoring w (h ++ copies) ∅ ∅) metrics with
        | (st, Ok _) =>
            (sc_world st, sc_heap st,
             Ok (seq (length h) (length copies), sc_summary st, sc_failures st))
        | (st, Raise e) => (sc_world st, sc_heap st, Raise e)
        end.
Proof.
  destruct (copy_rows_shape h rows) as (copies & Hcopy & Hlen).
  exists copies. split; [done|]. split.
  - intros Hrows. rewrite copy_rows_contents in Hcopy by done.
    injection Hcopy as Hcopy. by apply app_inv_head in Hcopy.
  - unfold score_rows, score_rows_init. rewrite Hcopy, Hlen. done.
Qed.

Lemma score_rows_lookup (w w' : World) h h' rows metrics scored
    (group_summary : gmap string float) (failures : gmap string string)
    (i : nat) metric outcome :
  Forall (λ l, l < length h) rows →
  NoDup (map metric_name metrics) →
  score_rows w h rows metrics = (w', h', Ok (scored, group_summary, failures)) →
  metrics !! i = Some metric →
  scorer_outcomes w (map (deref h) rows) metrics !! i = Some outcome →
  match metric_result (metric_name metric) outcome with
  | inl message =>
      failures !! metric_name metric = Some message
      ∧ group_summary !! metric_name metric = None
  | inr (metric_rows, average) =>
      failures !! metric_name metric = None
      ∧ group_summary !! metric_name metric = average
  end.
Proof.
  intros Hrows Hnd Hrun Hi Hout.
  destruct (score_rows_unfold w h rows metrics) as (copies & _ & _ & _ & Hscore).
  rewrite Hscore in Hrun. clear Hscore.
  destruct (score_loop _ _ _ metrics) as [st [[]|e]] eqn:Hloop; [|done].
  injection Hrun as _ _ _ <- <-.
  pose proof (take_drop_middle metrics i metric Hi) as Hsplit.
  rewrite <- Hsplit in Hnd, Hloop, Hout.
  rewrite map_app in Hnd. simpl in Hnd.
  apply NoDup_app in Hnd as (_ & Hpre & Hpost).
  apply NoDup_cons in Hpost as [Hpost _].
  assert (metric_name metric ∉ map metric_name (take i metrics)) as Hpre'.
  { intros Hin. apply (Hpre _ Hin). by left. }
  assert (length (take i metrics) = i) as Hlen.
  { apply length_take_le. apply lookup_lt_Some in Hi. lia. }
  destruct (score_loop_lookup rows h copies (take i metrics) (drop (S i) metrics)
              metric (Scoring w (h ++ copies) ∅ ∅) st Hrows eq_refl Hpre' Hpost Hloop)
    as (outcome' & Hout' & Hcase).
  rewrite Hlen in Hout'. simpl in Hout'. rewrite Hout in Hout'.
  injection Hout' as <-. cbn [sc_summary sc_failures] in Hcase.
  destruct (metric_result (metric_name metric) outcome)
    as [message|[metric_rows average]].
  - by rewrite lookup_empty in Hcase.
  - rewrite !lookup_empty in Hcase. destruct Hcase as [-> ->].
    by destruct average.
Qed.

(** The results of [score_metric], from the outcomes of the scorer calls. *)
Lemma metric_results_lookup (w : World) (contents : list row) metrics
    (i : nat) metric outcome :
  metrics !! i = Some metric →
  scorer_outcomes w contents metrics !! i = Some outcome →
  metric_results w contents metrics !! i
  = Some (metric_result (metric_name metric) outcome).
Proof.
  revert w i. induction metrics as [|m metrics IH]; intros w i Hi Hout; [done|].
  cbn [metric_results scorer_outcomes] in *. rewrite score_metric_result.
  destruct (evaluate w contents m) as [w' o]. cbn [fst snd].
  destruct i as [|i]; simpl in *.
  - by injection Hi as ->; injection Hout as ->.
  - by apply IH.
Qed.

Lemma length_metric_results (w : World) (contents : list row) metrics :
  length (metric_results w contents metrics) = length metrics.
Proof.
  revert w. induction metrics as [|metric metrics IH]; intros w; simpl; [done|].
  destruct (score_metric _ _ _ _ _ w contents metric) as [w' result]. simpl.
  by rewrite IH.
Qed.

(** C1, as amended: for a metric list with pairwise distinct names, after
    scoring a metric's name is never in both the summary and the failure map;
    it is in the failure map exactly when scoring the metric raised (the
    scorer, the conversion of a score to a float or the mean), and in the
    summary exactly when scoring the metric returned a mean; so it is in
    exactly one of the two unless scoring the metric returned without a
    mean, no row having a numeric score. *)
Theorem score_rows_summary_or_failure (w w' : World) h h' rows metrics scored
    (group_summary : gmap string float) (failures : gmap string string)
    (i : nat) metric result :
  Forall (λ l, l < length h) rows →
  NoDup (map metric_name metrics) →
  score_rows w h rows metrics = (w', h', Ok (scored, group_summary, failures)) →
  metrics !! i = Some metric →
  metric_results w (map (deref h) rows) metrics !! i = Some result →
  let name := metric_name metric in
  ¬ (is_Some (group_summary !! name) ∧ is_Some (failures !! name))
  ∧ (is_Some (failures !! name) ↔ ∃ message, result = inl message)
  ∧ (∀ message, result = inl message → failures !! name = Some message)
  ∧ (is_Some (group_summary !! name)
     ↔ ∃ metric_rows average, result = inr (metric_rows, Some average))
  ∧ (in_exactly_one name group_summary failures
     ↔ ¬ ∃ metric_rows, result = inr (metric_rows, None)).
Proof.
  clear construct. intros Hrows Hnd Hrun Hi Hres name.
  destruct (lookup_lt_is_Some_2 (scorer_outcomes w (map (deref h) rows) metrics) i)
    as [outcome Hout].
  { rewrite length_scorer_outcomes. by eapply lookup_lt_Some. }
  rewrite (metric_results_lookup _ _ _ _ _ _ Hi Hout) in Hres.
  injection Hres as <-.
  pose proof (score_rows_lookup _ _ _ _ _ _ _ _ _ _ _ _ Hrows Hnd Hrun Hi Hout) as H.
  subst name. unfold in_exactly_one.
  destruct (metric_result (metric_name metric) outcome)
    as [message|[metric_rows [average|]]];
    destruct H as [Hf Hs]; rewrite Hf, Hs; unfold is_Some;
    split_and!; naive_solver.
Qed.

(** The scores that count as numeric: integers, floats and, being integers
    in Python, booleans. *)
Lemma numeric_score_spec v :
  numeric_score float_of_int v
  = match v with
    | VBool true => Some (float_of_int 1)
    | VBool false => Some (float_of_int 0)
    | VInt n => Some (float_of_int n)
    | VFloat x => Some (inr x)
    | VNone | VStr _ | VList _ | VTuple _ | VDict _ | VObject _ _ => None
    end.
Proof. by destruct v as [|[]| | | | | | |]. Qed.

Lemma float_of_functional v (r1 r2 : string + float) :
  float_of v r1 → float_of v r2 → r1 = r2.
Proof. intros H1 H2. destruct H1; by inversion H2. Qed.

(** The conversion that [score_metric] makes of a value is that of a numeric
    score. *)
Lemma numeric_score_float_of v :
  match numeric_score float_of_int v with
  | Some converted => numeric v = true ∧ float_of v converted
  | None => numeric v = false
  end.
Proof.
  destruct v as [|[]| | | | | | |]; simpl; try done; split; try done; constructor.
Qed.

(** The list [values] of [score_metric] holds the floats of the numeric
    scores; building it raises when the conversion of one of them does. *)
Lemma numeric_values_spec (name : string) (scored_rows : list row) :
  match numeric_values name scored_rows with
  | inr values =>
      Forall2 (λ v x, float_of v (inr x))
        (List.filter numeric (map (λ r, row_get r name) scored_rows)) values
  | inl error =>
      ∃ v, v ∈ List.filter numeric (map (λ r, row_get r name) scored_rows)
           ∧ float_of v (inl error)
  end.
Proof.
  induction scored_rows as [|r rest IH]; [constructor|].
  cbn [numeric_values map List.filter].
  pose proof (numeric_score_float_of (row_get r name)) as Hv.
  destruct (numeric_score float_of_int (row_get r name)) as [[error|x]|].
  - destruct Hv as [-> Hv]. exists (row_get r name). split; [by left|done].
  - destruct Hv as [-> Hv].
    destruct (numeric_values name rest) as [error|values].
    + destruct IH as (v & Hin & Hfail). exists v. split; [by right|done].
    + by constructor.
  - by rewrite Hv.
Qed.

Lemma numeric_values_floats (name : string) (scored_rows : list row)
    (values : list float) :
  Forall2 (λ v x, float_of v (inr x))
    (List.filter numeric (map (λ r, row_get r name) scored_rows)) values →
  numeric_values name scored_rows = inr values.
Proof.
  intros Hvalues. pose proof (numeric_values_spec name scored_rows) as Hspec.
  destruct (numeric_values name scored_rows) as [error|values'].
  - destruct Hspec as (v & Hin & Hfail).
    apply list_elem_of_lookup in Hin as [j Hj].
    destruct (Forall2_lookup_l _ _ _ _ _ Hvalues Hj) as (x & _ & Hx).
    by pose proof (float_of_functional _ _ _ Hfail Hx).
  - f_equal. eapply Forall2_unique; [exact Hspec|exact Hvalues|].
    intros v x1 x2 H1 H2. pose proof (float_of_functional _ _ _ H1 H2). congruence.
Qed.

Lemma numeric_values_raises (name : string) (scored_rows : list row) v error :
  v ∈ List.filter numeric (map (λ r, row_get r name) scored_rows) →
  float_of v (inl error) →
  ∃ first, numeric_values name scored_rows = inl first.
Proof.
  intros Hin Hfail. pose proof (numeric_values_spec name scored_rows) as Hspec.
  destruct (numeric_values name scored_rows) as [first|values];
    [by exists first|].
  apply list_elem_of_lookup in Hin as [j Hj].
  destruct (Forall2_lookup_l _ _ _ _ _ Hspec Hj) as (x & _ & Hx).
  by pose proof (float_of_functional _ _ _ Hfail Hx).
Qed.

(** C7, as amended: for a metric that the scorer scored, in a list of
    metrics with pairwise distinct names, when the numeric scores of its
    records convert to floats, the summary value is their mean, the records
    without a numeric score being left out, and there is no summary entry
    when no record has a numeric score; when the mean raises, or the
    conversion of a numeric score does, the summary has no entry for the
    metric and the failure map has one. *)
Theorem score_rows_summary_mean (w w' : World) h h' rows metrics scored
    (group_summary : gmap string float) (failures : gmap string string)
    (i : nat) metric (records : list row) :
  Forall (λ l, l < length h) rows →
  NoDup (map metric_name metrics) →
  score_rows w h rows metrics = (w', h', Ok (scored, group_summary, failures)) →
  metrics !! i = Some metric →
  scorer_outcomes w (map (deref h) rows) metrics !! i = Some (ScorerRecords records) →
  let name := metric_name metric in
  (∀ values,
     Forall2 (λ v x, float_of v (inr x)) (numeric_scores name records) values →
     (values = [] → group_summary !! name = None ∧ failures !! name = None)
     ∧ (∀ mean, values ≠ [] → fmean values = inr mean →
                group_summary !! name = Some mean ∧ failures !! name = None)
     ∧ (∀ error, values ≠ [] → fmean values = inl error →
                 group_summary !! name = None ∧ failures !! name = Some error))
  ∧ (∀ v error,
       v ∈ numeric_scores name records → float_of v (inl error) →
       group_summary !! name = None ∧ is_Some (failures !! name)).
Proof.
  intros Hrows Hnd Hrun Hi Hout name.
  pose proof (score_rows_lookup _ _ _ _ _ _ _ _ _ _ _ _ Hrows Hnd Hrun Hi Hout)
    as Hcase.
  subst name. set (name := metric_name metric) in *.
  change (metric_result name (ScorerRecords records))
    with (score_records name records) in Hcase.
  unfold score_records, average_of in Hcase.
  assert (numeric_scores name records
          = List.filter numeric
              (map (λ r, row_get r name) (map normalize_row records))) as Hscores.
  { unfold numeric_scores. by rewrite map_map. }
  split.
  - intros values Hvalues. rewrite Hscores in Hvalues.
    apply numeric_values_floats in Hvalues. rewrite Hvalues in Hcase.
    destruct values as [|x values]; cbn [nonempty] in Hcase.
    + destruct Hcase as [Hf Hs]. by split_and!.
    + destruct (fmean (x :: values)) as [error|mean];
        destruct Hcase as [Hf Hs]; split_and!; try done;
        by intros ? _ [= <-].
  - intros v error Hin Hfail. rewrite Hscores in Hin.
    destruct (numeric_values_raises _ _ _ _ Hin Hfail) as [first Hfirst].
    rewrite Hfirst in Hcase. destruct Hcase as [-> ->]. split; [done|by eexists].
Qed.

(** ** Failure isolation *)

(** Writing one key leaves the other keys of every dict as they were. *)
Lemma set_item_other h (l l' : nat) (name key : string) v :
  name ≠ key →
  dict_get (deref (set_item h l' name v) l) key = dict_get (deref h l) key.
Proof.
  intros Hne. unfold deref, set_item.
  destruct (decide (l' = l)) as [->|Hl].
  - rewrite list_lookup_alter_eq. destruct (h !! l) as [r|]; simpl; [|done].
    by apply dict_get_set_ne.
  - by rewrite list_lookup_alter_ne.
Qed.

Lemma set_all_none_other h scored (l : nat) (name key : string) :
  name ≠ key →
  dict_get (deref (set_all_none h scored name) l) key = dict_get (deref h l) key.
Proof.
  intros Hne. unfold set_all_none. revert h.
  induction scored as [|l' scored IH]; intros h; simpl; [done|].
  rewrite IH. by apply set_item_other.
Qed.

Lemma merge_scores_other scored (l : nat) (name key : string) (metric_rows : list row) :
  name ≠ key →
  ∀ h index,
    dict_get (deref (fst (merge_scores h scored name index metric_rows)) l) key
    = dict_get (deref h l) key.
Proof.
  intros Hne. induction metric_rows as [|metric_row rest IH]; intros h index; simpl;
    [done|].
  destruct (scored !! index) as [l'|]; [|done].
  rewrite IH. by apply set_item_other.
Qed.

Lemma score_step_other_key rows scored st metric (l : nat) (key : string) :
  metric_name metric ≠ key →
  dict_get (deref (sc_heap (fst (score_step rows scored st metric))) l) key
  = dict_get (deref (sc_heap st) l) key.
Proof.
  intros Hne.
  destruct (score_step_outcome rows scored st metric) as [_ Hcase].
  destruct (metric_result _ (snd (evaluate _ _ _)))
    as [message|[metric_rows average]].
  - destruct Hcase as (_ & -> & _). by apply set_all_none_other.
  - destruct Hcase as (-> & _). by apply merge_scores_other.
Qed.

Lemma score_loop_other_key rows scored (l : nat) (key : string) metrics :
  key ∉ map metric_name metrics →
  ∀ st,
    dict_get (deref (sc_heap (fst (score_loop rows scored st metrics))) l) key
    = dict_get (deref (sc_heap st) l) key.
Proof.
  induction metrics as [|metric metrics IH]; intros Hkey st; simpl; [done|].
  simpl in Hkey. apply not_elem_of_cons in Hkey as [Hne Hkey].
  pose proof (score_step_other_key rows scored st metric l key) as Hstep.
  destruct (score_step rows scored st metric) as [st1 [[]|e]]; simpl in *.
  - rewrite IH by done. by apply Hstep.
  - by apply Hstep.
Qed.

(** C3: when the scorer fails for a metric, the iteration records the
    message under the metric's name in the failures, leaves the summary
    alone, sets the metric's score to null on every scored row, of which
    there is one per row of the group, and the loop goes on with the metrics
    that remain; unless one of those has the same name, the message and the
    nulls are still there when the loop ends. *)
Theorem score_rows_failure_isolated (w w' : World) h rows
    (pre post : list Metric) metric st0 st1 scored (message : string) :
  score_rows_init w h rows = (st0, scored) →
  score_loop rows scored st0 pre = (st1, Ok tt) →
  evaluate (sc_world st1) (map (deref (sc_heap st1)) rows) metric
  = (w', ScorerRaised message) →
  ∃ st2,
    score_step rows scored st1 metric = (st2, Ok tt)
    ∧ sc_failures st2 = <[metric_name metric := message]> (sc_failures st1)
    ∧ sc_summary st2 = sc_summary st1
    ∧ length scored = length rows
    ∧ Forall (λ l, dict_get (deref (sc_heap st2) l) (metric_name metric)
                   = Some VNone) scored
    ∧ score_loop rows scored st0 (pre ++ metric :: post)
      = score_loop rows scored st2 post
    ∧ (metric_name metric ∉ map metric_name post →
       let final := fst (score_loop rows scored st2 post) in
       sc_failures final !! metric_name metric = Some message
       ∧ sc_summary final !! metric_name metric
         = sc_summary st1 !! metric_name metric
       ∧ Forall (λ l, dict_get (deref (sc_heap final) l) (metric_name metric)
                      = Some VNone) scored).
Proof.
  intros Hinit Hpre Hcall.
  destruct (score_rows_unfold w h rows []) as (copies & Hlen & _ & Hinit' & _).
  rewrite Hinit' in Hinit. injection Hinit as <- <-.
  destruct (score_loop_shape rows h copies pre (Scoring w (h ++ copies) ∅ ∅) eq_refl)
    as (copies1 & H1 & Hlen1).
  rewrite Hpre in H1. simpl in H1.
  destruct (score_step_outcome rows (seq (length h) (length copies)) st1 metric)
    as [_ Hcase].
  rewrite Hcall in Hcase. cbn [snd metric_result] in Hcase.
  destruct Hcase as (Hok & Hheap & Hs & Hf).
  destruct (score_step rows (seq (length h) (length copies)) st1 metric)
    as [st2 res] eqn:Hstep.
  simpl in *. subst res. exists st2.
  split; [done|]. split; [done|]. split; [done|].
  split; [by rewrite length_seq|].
  assert (Forall (λ l, dict_get (deref (sc_heap st2) l) (metric_name metric)
                       = Some VNone) (seq (length h) (length copies))) as Hnull.
  { rewrite Hheap, H1. unfold set_all_none. rewrite <- Hlen1, set_item_fold_seq.
    apply Forall_forall. intros l Hl.
    apply elem_of_seq in Hl as [Hge Hlt].
    unfold deref. rewrite lookup_app_r by exact Hge.
    rewrite list_lookup_fmap.
    destruct (lookup_lt_is_Some_2 copies1 (l - length h)) as [r Hr]; [lia|].
    rewrite Hr. simpl. apply dict_get_set_eq. }
  split; [done|]. split.
  - rewrite score_loop_app, Hpre. simpl. by rewrite Hstep.
  - intros Hpost.
    destruct (score_loop_other rows (seq (length h) (length copies))
                (metric_name metric) post Hpost st2) as [Hs' Hf'].
    rewrite Hs', Hf', Hs, Hf, lookup_insert_eq.
    split; [done|]. split; [done|].
    eapply Forall_impl; [exact Hnull|]. intros l Hl. cbn beta in *.
    by rewrite score_loop_other_key.
Qed.

(** ** The input rows are left alone *)

(** C10: [score_rows] leaves every dict that was on the heap as it was: what
    it writes, it writes on the copies it allocates, one per row, which start
    out as the normalized rows, differ from them at the end only under the
    names of the metrics, and are the scored rows it returns. *)
Theorem score_rows_frame (w : World) h rows metrics :
  ∃ copies : list row,
    length copies = length rows
    ∧ snd (fst (score_rows w h rows metrics)) = h ++ copies
    ∧ (∀ l, l < length h →
            snd (fst (score_rows w h rows metrics)) !! l = h !! l)
    ∧ (∀ scored group_summary failures,
         snd (score_rows w h rows metrics) = Ok (scored, group_summary, failures) →
         scored = seq (length h) (length rows))
    ∧ (Forall (λ l, l < length h) rows →
       score_rows_init w h rows
       = (Scoring w (h ++ map (λ l, normalize_row (deref h l)) rows) ∅ ∅,
          seq (length h) (length rows))
       ∧ ∀ (i l : nat) (key : string),
           rows !! i = Some l →
           key ∉ map metric_name metrics →
           dict_get (deref (h ++ copies) (length h + i)) key
           = dict_get (normalize_row (deref h l)) key).
Proof.
  destruct (score_rows_unfold w h rows metrics)
    as (copies & Hlen & Hcontents & Hinit & Hscore).
  destruct (score_loop_shape rows h copies metrics (Scoring w (h ++ copies) ∅ ∅)
              eq_refl) as (copies' & Hheap & Hlen').
  assert (Hkeys : Forall (λ l, l < length h) rows →
    ∀ (i l : nat) (key : string),
      rows !! i = Some l →
      key ∉ map metric_name metrics →
      dict_get (deref (h ++ copies') (length h + i)) key
      = dict_get (normalize_row (deref h l)) key).
  { intros Hrows i l key Hi Hkey. rewrite <- Hheap.
    rewrite score_loop_other_key by done. simpl.
    rewrite (Hcontents Hrows). unfold deref at 1.
    rewrite lookup_app_r by lia.
    replace (length h + i - length h) with i by lia.
    by rewrite list_lookup_fmap, Hi. }
  exists copies'. rewrite Hscore.
  destruct (score_loop _ _ _ metrics) as [st [[]|e]]; simpl in *.
  - split; [lia|]. split; [done|]. split.
    + intros l Hl. by rewrite Hheap, lookup_app_l.
    + split.
      * intros scored s f [= <- _ _]. by rewrite Hlen.
      * intros Hrows. split; [|by apply Hkeys].
        rewrite Hinit, (Hcontents Hrows), length_map. done.
  - split; [lia|]. split; [done|]. split.
    + intros l Hl. by rewrite Hheap, lookup_app_l.
    + split; [done|].
      intros Hrows. split; [|by apply Hkeys].
      rewrite Hinit, (Hcontents Hrows), length_map. done.
Qed.

(** ** A group without metrics *)

(** C9: when the selection for a group yields no metric, the iteration of
    [main] for the group completes: the group gets a report with no selected
    metric, an empty summary and the advisory message under the key
    ["_group"] as its only failure, and its rows, normalized and tagged with
    the group, are in the report and in the flattened rows. *)
Theorem process_group_no_metrics (requested : option (list string))
    (st : @run float World) (group_name : string) (group_rows_list : list nat)
    (available : list string) :
  Forall (λ l, l < length (run_heap st)) group_rows_list →
  pick_metric_names (map (deref (run_heap st)) group_rows_list) requested group_name
  = Ok ([], available) →
  ∃ (report : @GroupReport float) (final : @run float World),
    process_group requested st group_name group_rows_list = (final, Ok tt)
    ∧ dict_get (groups_output final) group_name = Some report
    ∧ row_count report = length group_rows_list
    ∧ selected_metrics report = []
    ∧ auto_available_metrics report = available
    ∧ summary report = ∅
    ∧ metric_failures report = {[ "_group" := no_metrics_message ]}
    ∧ dict_get (failures_by_group final) group_name = Some (metric_failures report)
    ∧ report_rows report
      = seq (length (run_heap st)) (length group_rows_list)
    ∧ run_heap final
      = run_heap st
        ++ map (λ l, dict_set (normalize_row (deref (run_heap st) l))
                       "evaluation_group" (VStr group_name))
             group_rows_list
    ∧ flattened_rows final = flattened_rows st ++ report_rows report
    ∧ run_world final = run_world st.
Proof.
  intros Hrows Hpick. unfold process_group. rewrite Hpick. simpl.
  rewrite copy_rows_contents by done.
  eexists _, _. split; [reflexivity|]. simpl.
  rewrite !dict_get_set_eq. repeat (split; [done|]).
  split; [|done]. unfold tag_rows.
  pose proof (set_item_fold_seq (run_heap st)
                (map (λ l, normalize_row (deref (run_heap st) l)) group_rows_list)
                "evaluation_group" (VStr group_name)) as H.
  rewrite length_map in H. rewrite H. by rewrite map_map.
Qed.

(** * Further properties *)

(** Drops the parameters of the scoring library where a proof does not need
    them. *)
Local Ltac tidy :=
  try clear construct; try clear evaluate; try clear name_attr class_name;
  try clear float_of_int fmean.

(** ** Trimmed group keys *)

(** X1: a group key is never empty and has no white space around it. *)
Theorem get_group_key_trimmed r (group_by : string) :
  get_group_key r group_by ≠ ""
  ∧ PyStr.strip (get_group_key r group_by) = get_group_key r group_by.
Proof.
  tidy.
  assert (Htext : ∀ v text, stripped_text v = Some text →
                            text ≠ "" ∧ PyStr.strip text = text).
  { intros v text Htext. apply stripped_text_spec in Htext as (raw & _ & -> & Hne).
    split; [done|]. apply strip_idempotent. }
  assert (Hconst : ∀ text, text = "all" ∨ text = "uncategorized" →
                             text ≠ "" ∧ PyStr.strip text = text).
  { intros text [-> | ->]; split; done || by vm_compute. }
  unfold get_group_key.
  destruct (String.eqb group_by "none"); [apply Hconst; by left|].
  destruct (stripped_text (row_get r "category")) as [category|] eqn:Ecat.
  { by apply (Htext _ _ Ecat). }
  destruct (row_get r "metadata") as [| | | | | | |metadata|];
    try (apply Hconst; by right).
  destruct (stripped_text (default VNone (dict_get metadata "category")))
    as [nested|] eqn:Enested; [|apply Hconst; by right].
  by apply (Htext _ _ Enested).
Qed.

(** ** Normalized group names *)

(** X2: normalizing a group name twice is normalizing it once, so the
    default preferences of a name and of its normalized form are the same. *)
Theorem normalize_group_name_idempotent (group_name : string) :
  normalize_group_name (normalize_group_name group_name)
  = normalize_group_name group_name
  ∧ get_default_metric_preferences (normalize_group_name group_name)
    = get_default_metric_preferences group_name.
Proof.
  tidy.
  assert (normalize_group_name (normalize_group_name group_name)
          = normalize_group_name group_name) as Hidem.
  { unfold normalize_group_name, PyStr.replace_char, PyStr.lower.
    rewrite !map_chars_map_chars.
    rewrite map_chars_strip by (intros c; apply (fold_char_facts c)).
    rewrite strip_idempotent, map_chars_map_chars.
    apply map_chars_ext. intros c. apply (fold_char_facts c). }
  split; [done|]. unfold get_default_metric_preferences. by rewrite Hidem.
Qed.

(** ** The groups *)

Local Abbreviation group_fold h group_by rows grouped :=
  (fold_left (λ acc l, setdefault_append acc (key_of h group_by l) l) rows grouped).

Lemma dict_get_setdefault_append (grouped : dict (list nat)) (key key' : string)
    (l : nat) :
  dict_get (setdefault_append grouped key l) key'
  = if decide (key = key')
    then Some (default [] (dict_get grouped key) ++ [l])
    else dict_get grouped key'.
Proof.
  tidy.
  unfold setdefault_append. destruct (decide (key = key')) as [<-|Hne].
  - destruct (dict_get grouped key); by rewrite dict_get_set_eq.
  - destruct (dict_get grouped key); by rewrite dict_get_set_ne.
Qed.

Lemma keys_dict_set {V} (d : dict V) (key : string) (x : V) :
  map fst (dict_set d key x)
  = if decide (key ∈ map fst d) then map fst d else map fst d ++ [key].
Proof.
  tidy.
  induction d as [|[k y] d IH]; simpl.
  { reflexivity. }
  destruct (String.eqb k key) eqn:E; simpl.
  - apply String.eqb_eq in E as ->. rewrite decide_True; [done|by left].
  - apply String.eqb_neq in E. rewrite IH.
    destruct (decide (key ∈ map fst d)) as [Hin|Hout].
    + rewrite decide_True; [done|by right].
    + rewrite decide_False; [done|]. by intros [->|?]%elem_of_cons.
Qed.

Lemma keys_setdefault_append (grouped : dict (list nat)) (key : string) (l : nat) :
  map fst (setdefault_append grouped key l)
  = if decide (key ∈ map fst grouped) then map fst grouped
    else map fst grouped ++ [key].
Proof. tidy. unfold setdefault_append. destruct (dict_get grouped key); apply keys_dict_set. Qed.

Lemma group_fold_lookup h (group_by : string) (rows : list nat) (key : string) :
  ∀ grouped : dict (list nat),
    dict_get (group_fold h group_by rows grouped) key
    = match dict_get grouped key with
      | Some members =>
          Some (members ++ filter (λ l, key_of h group_by l = key) rows)
      | None =>
          if decide (filter (λ l, key_of h group_by l = key) rows = []) then None
          else Some (filter (λ l, key_of h group_by l = key) rows)
      end.
Proof.
  tidy.
  induction rows as [|l rows IH]; intros grouped; simpl.
  - rewrite filter_nil. destruct (dict_get grouped key); [by rewrite app_nil_r|done].
  - rewrite IH, dict_get_setdefault_append, filter_cons.
    destruct (decide (key_of h group_by l = key)) as [Hkey|Hkey].
    + destruct (dict_get grouped (key_of h group_by l)) as [members|] eqn:E;
        rewrite Hkey in E; rewrite E; simpl.
      * by rewrite <- app_assoc.
      * done.
    + done.
Qed.

(** X3: the group of a key holds the rows that resolve to the key, in their
    input order; a key to which no row resolves has no group. *)
Theorem group_rows_members h (rows : list nat) (group_by key : string) :
  dict_get (group_rows h rows group_by) key
  = if decide (filter (λ l, key_of h group_by l = key) rows = []) then None
    else Some (filter (λ l, key_of h group_by l = key) rows).
Proof. tidy. exact (group_fold_lookup h group_by rows key []). Qed.

Lemma group_fold_keys h (group_by : string) (rows : list nat) :
  ∀ grouped : dict (list nat),
    map fst (group_fold h group_by rows grouped)
    = map fst grouped
      ++ filter (λ k, k ∉ map fst grouped) (map fst (group_fold h group_by rows [])).
Proof.
  tidy.
  induction rows as [|l rows IH]; intros grouped; simpl.
  - by rewrite filter_nil, app_nil_r.
  - set (key := key_of h group_by l).
    rewrite (IH (setdefault_append grouped key l)), (IH (setdefault_append [] key l)).
    rewrite !keys_setdefault_append. simpl.
    set (keys := map fst (group_fold h group_by rows [])).
    destruct (decide (key ∈ map fst grouped)) as [Hin|Hout].
    + rewrite filter_cons_False by tauto.
      f_equal. rewrite list_filter_filter. apply list_filter_iff.
      intros k. split; [|tauto]. intros Hk. split; [done|].
      intros ->%list_elem_of_singleton. done.
    + rewrite filter_cons_True by done.
      rewrite <- app_assoc. simpl. do 2 f_equal.
      rewrite list_filter_filter. apply list_filter_iff.
      intros k. rewrite not_elem_of_app. tauto.
Qed.

Lemma group_fold_NoDup h (group_by : string) (rows : list nat) :
  ∀ grouped : dict (list nat),
    NoDup (map fst grouped) → NoDup (map fst (group_fold h group_by rows grouped)).
Proof.
  tidy.
  induction rows as [|l rows IH]; intros grouped Hnd; simpl; [done|].
  apply IH. rewrite keys_setdefault_append.
  destruct (decide (_ ∈ _)) as [Hin|Hout]; [done|].
  apply NoDup_app. split; [done|]. split; [|apply NoDup_singleton].
  intros k Hk ->%list_elem_of_singleton. done.
Qed.

(** X4: the keys of the groups are pairwise distinct and in the order in
    which the rows first show them: the key of the first row comes first,
    followed by the other keys of the remaining rows in their order. *)
Theorem group_rows_keys h (l : nat) (rows : list nat) (group_by : string) :
  NoDup (map fst (group_rows h (l :: rows) group_by))
  ∧ map fst (group_rows h (l :: rows) group_by)
    = key_of h group_by l
      :: filter (λ k, k ≠ key_of h group_by l) (map fst (group_rows h rows group_by)).
Proof.
  tidy.
  split.
  - apply (group_fold_NoDup h group_by (l :: rows) []). constructor.
  - change (group_rows h (l :: rows) group_by)
      with (group_fold h group_by rows (setdefault_append [] (key_of h group_by l) l)).
    change (group_rows h rows group_by) with (group_fold h group_by rows []).
    rewrite (group_fold_keys h group_by rows (setdefault_append [] _ l)).
    rewrite keys_setdefault_append. simpl.
    f_equal. apply list_filter_iff. intros k.
    rewrite list_elem_of_singleton. done.
Qed.

Lemma group_fold_all h (rows : list nat) :
  ∀ members : list nat,
    group_fold h "none" rows [("all", members)] = [("all", members ++ rows)].
Proof.
  tidy.
  induction rows as [|l rows IH]; intros members; simpl; [by rewrite app_nil_r|].
  change (setdefault_append [("all", members)] (key_of h "none" l) l)
    with [("all", members ++ [l])].
  by rewrite IH, <- app_assoc.
Qed.

(** X5: with grouping disabled, a non-empty input makes one group, named
    "all", which holds every row in input order. *)
Theorem group_rows_none h (rows : list nat) :
  rows ≠ [] → group_rows h rows "none" = [("all", rows)].
Proof.
  tidy.
  destruct rows as [|l rows]; [done|]. intros _.
  change (group_rows h (l :: rows) "none")
    with (group_fold h "none" rows [("all", [l])]).
  by rewrite (group_fold_all h rows [l]).
Qed.

Lemma concat_dict_set (grouped : dict (list nat)) (key : string) (members : list nat) :
  concat (map snd (dict_set grouped key members))
    ++ default [] (dict_get grouped key)
  ≡ₚ concat (map snd grouped) ++ members.
Proof.
  tidy.
  induction grouped as [|[k old] grouped IH]; simpl; [by rewrite !app_nil_r|].
  destruct (String.eqb k key); simpl.
  - rewrite <- !app_assoc. rewrite (Permutation_app_comm members).
    rewrite (Permutation_app_comm (concat (map snd grouped)) old).
    by rewrite <- app_assoc.
  - rewrite <- !app_assoc. f_equiv. apply IH.
Qed.

Lemma concat_setdefault_append (grouped : dict (list nat)) (key : string) (l : nat) :
  concat (map snd (setdefault_append grouped key l))
  ≡ₚ l :: concat (map snd grouped).
Proof.
  tidy.
  unfold setdefault_append.
  destruct (dict_get grouped key) as [members|] eqn:G.
  - pose proof (concat_dict_set grouped key (members ++ [l])) as H.
    rewrite G in H. simpl in H.
    apply (Permutation_app_inv_r members). rewrite H. simpl.
    rewrite (Permutation_app_comm members [l]). simpl.
    by rewrite <- Permutation_middle.
  - pose proof (concat_dict_set grouped key [l]) as H.
    rewrite G in H. simpl in H. rewrite app_nil_r in H.
    by rewrite H, <- Permutation_cons_append.
Qed.

(** X6: the groups partition the input: taken together, their members are
    the input rows, each as often as it occurs in the input. *)
Theorem group_rows_partition h (rows : list nat) (group_by : string) :
  concat (map snd (group_rows h rows group_by)) ≡ₚ rows.
Proof.
  tidy.
  change (group_rows h rows group_by) with (group_fold h group_by rows []).
  assert (∀ grouped : dict (list nat),
    concat (map snd (group_fold h group_by rows grouped))
    ≡ₚ concat (map snd grouped) ++ rows) as Hfold.
  { induction rows as [|l rows IH]; intros grouped; simpl; [by rewrite app_nil_r|].
    rewrite IH, concat_setdefault_append. by rewrite <- Permutation_middle. }
  apply (Hfold []).
Qed.

(** ** More on eligibility and selection *)

Lemma available_metrics_elem_of (rows : list row) (metric : string) :
  metric ∈ available_metrics rows
  ↔ ∃ keys, dict_get requirements metric = Some keys
            ∧ forallb (λ r, forallb (has_value r) keys) rows = true.
Proof.
  tidy.
  unfold available_metrics. rewrite list_elem_of_fmap. split.
  - intros ([name keys] & -> & Hin). cbn [fst].
    apply list_elem_of_In, filter_In in Hin as [Hin Hall]. cbn [snd] in Hall.
    exists keys. split; [|done].
    apply dict_get_elem_of; [apply requirements_NoDup|]. by apply list_elem_of_In.
  - intros (keys & Hget & Hall).
    apply dict_get_elem_of in Hget; [|apply requirements_NoDup].
    exists (metric, keys). split; [done|].
    apply list_elem_of_In, filter_In. split; [by apply list_elem_of_In|done].
Qed.

(** X7: with no row every known metric is eligible, and a metric is
    eligible for two groups put together exactly when it is eligible for
    each of them. *)
Theorem available_metrics_app (rows1 rows2 : list row) (metric : string) :
  available_metrics (@nil row) = known_metrics
  ∧ (metric ∈ available_metrics (rows1 ++ rows2)
     ↔ metric ∈ available_metrics rows1 ∧ metric ∈ available_metrics rows2).
Proof.
  tidy.
  split; [done|]. rewrite !available_metrics_elem_of. split.
  - intros (keys & Hget & Hall). rewrite forallb_app in Hall.
    apply andb_true_iff in Hall as [H1 H2]. split; by exists keys.
  - intros [(keys & Hget & H1) (keys' & Hget' & H2)].
    rewrite Hget in Hget'. injection Hget' as <-.
    exists keys. split; [done|]. rewrite forallb_app. by rewrite H1, H2.
Qed.

Lemma known_metrics_NoDup : NoDup known_metrics.
Proof. tidy. apply (bool_decide_unpack _). by vm_compute. Qed.

Lemma available_metrics_NoDup (rows : list row) : NoDup (available_metrics rows).
Proof.
  tidy.
  eapply sublist_NoDup; [apply known_metrics_NoDup|apply available_metrics_sublist].
Qed.

Lemma List_filter_subseteq {A} (f : A → bool) (l : list A) : List.filter f l ⊆ l.
Proof. tidy. intros x Hx. by apply list_elem_of_In, filter_In in Hx as [?%list_elem_of_In _]. Qed.

(** What [pick_metric_names] returns, case by case. *)
Lemma pick_metric_names_cases (rows : list row) (requested : option (list string))
    (group_name : string) (selected eligible_names : list string) :
  pick_metric_names rows requested group_name = Ok (selected, eligible_names) →
  eligible_names = available_metrics rows
  ∧ ((selected ≠ [] ∧ requested = Some selected
      ∧ List.filter (λ m, negb (dict_mem requirements m)) selected = []
      ∧ List.filter (λ m, negb (bool_decide (m ∈ available_metrics rows))) selected = [])
     ∨ (nonempty (default [] requested) = false
        ∧ ((∃ preferred,
              get_default_metric_preferences group_name = Some preferred
              ∧ selected = List.filter (λ m, bool_decide (m ∈ available_metrics rows))
                             preferred
              ∧ selected ≠ [])
           ∨ selected = available_metrics rows))).
Proof.
  tidy.
  unfold pick_metric_names.
  destruct (nonempty (default [] requested)) eqn:Ereq.
  - destruct requested as [requested|]; [|done]. simpl in *.
    destruct (nonempty (List.filter _ requested)) eqn:E1; [done|].
    destruct (nonempty (List.filter _ requested)) eqn:E2 in |- *; [done|].
    intros [= <- <-]. split; [done|]. left.
    apply nonempty_spec in Ereq. apply nonempty_false in E1, E2. done.
  - intros Hpick. assert (eligible_names = available_metrics rows) as ->.
    { destruct (get_default_metric_preferences group_name) as [preferred|];
        [|by injection Hpick].
      destruct (nonempty preferred); [|by injection Hpick].
      destruct (nonempty (List.filter _ preferred)); by injection Hpick. }
    split; [done|]. right. split; [done|].
    destruct (get_default_metric_preferences group_name) as [preferred|];
      [|right; by injection Hpick].
    destruct (nonempty preferred); [|right; by injection Hpick].
    destruct (nonempty (List.filter _ preferred)) eqn:E; [|right; by injection Hpick].
    left. exists preferred. injection Hpick as <-.
    apply nonempty_spec in E. done.
Qed.

(** X8: the second list that the selection returns is the eligible set;
    every selected metric is eligible and every eligible metric is one of the
    five known ones; and no metric is selected exactly when none is
    eligible. *)
Theorem pick_metric_names_selected_eligible (rows : list row)
    (requested : option (list string)) (group_name : string)
    (selected eligible_names : list string) :
  pick_metric_names rows requested group_name = Ok (selected, eligible_names) →
  eligible_names = available_metrics rows
  ∧ selected ⊆ eligible_names
  ∧ eligible_names ⊆ known_metrics
  ∧ (selected = [] ↔ eligible_names = []).
Proof.
  tidy.
  intros Hpick. apply pick_metric_names_cases in Hpick as [-> Hcases].
  split; [done|].
  assert (selected ⊆ available_metrics rows) as Hsub.
  { destruct Hcases as [(_ & _ & _ & Hmissing)|[_ [(preferred & _ & -> & _)| ->]]];
      [| |done].
    - intros m Hm. destruct (decide (m ∈ available_metrics rows)) as [|Hout]; [done|].
      assert (m ∈ List.filter
                (λ m, negb (bool_decide (m ∈ available_metrics rows))) selected) as Hin.
      { apply list_elem_of_In, filter_In. split; [by apply list_elem_of_In|].
        by rewrite bool_decide_eq_false_2. }
      rewrite Hmissing in Hin. by apply elem_of_nil in Hin.
    - intros m Hm. apply list_elem_of_In, filter_In in Hm as [_ Hm].
      by apply bool_decide_eq_true in Hm. }
  split; [done|]. split.
  - apply sublist_subseteq, available_metrics_sublist.
  - split.
    + intros ->.
      destruct Hcases as [(Hne & _)|[_ [(preferred & _ & _ & Hne)| <-]]]; done.
    + intros Hnone. rewrite Hnone in Hsub.
      destruct selected as [|m selected]; [done|].
      exfalso. eapply not_elem_of_nil, Hsub. by left.
Qed.

(** X9: when no metric is requested, the selected metrics are pairwise
    distinct. *)
Theorem pick_metric_names_auto_NoDup (rows : list row)
    (requested : option (list string)) (group_name : string)
    (selected eligible_names : list string) :
  requested = None ∨ requested = Some [] →
  pick_metric_names rows requested group_name = Ok (selected, eligible_names) →
  NoDup selected.
Proof.
  tidy.
  intros Hreq Hpick. apply pick_metric_names_cases in Hpick as [_ Hcases].
  destruct Hcases as [(Hne & -> & _)|[_ [(preferred & Hpref & -> & _)| ->]]].
  - by destruct Hreq as [?|[= ->]].
  - eapply sublist_NoDup; [|apply List_filter_sublist].
    unfold get_default_metric_preferences in Hpref.
    destruct (String.eqb _ "qa");
      [|destruct (String.eqb _ "work-search" || String.eqb _ "work")];
      [| |done]; injection Hpref as <-; apply (bool_decide_unpack _); by vm_compute.
  - apply available_metrics_NoDup.
Qed.

Lemma build_metrics_known (names : list string) :
  Forall (λ m, m ∈ known_metrics) names →
  build_metrics construct names = Ok (map construct names).
Proof.
  tidy.
  induction names as [|name names IH]; intros Hall; simpl; [done|].
  apply Forall_cons in Hall as [Hname Hall]. rewrite (IH Hall).
  assert (Hname' := Hname). unfold known_metrics in Hname'.
  repeat (apply elem_of_cons in Hname' as [->|Hname']; [done|]).
  by apply elem_of_nil in Hname'.
Qed.

(** X10: the metrics that the selection returns can always be built: the
    builder returns one metric object per selected name, in order. *)
Theorem build_metrics_selected (rows : list row) (requested : option (list string))
    (group_name : string) (selected eligible_names : list string) :
  pick_metric_names rows requested group_name = Ok (selected, eligible_names) →
  build_metrics construct selected = Ok (map construct selected).
Proof.
  tidy.
  intros Hpick. apply build_metrics_known. apply Forall_forall. intros m Hm.
  apply pick_metric_names_cases in Hpick as [_ Hcases].
  destruct Hcases
    as [(_ & _ & Hunsupported & _)|[_ [(preferred & _ & -> & _)| ->]]].
  - destruct (dict_mem requirements m) eqn:E.
    + by apply dict_mem_spec in E.
    + assert (m ∈ List.filter (λ m, negb (dict_mem requirements m)) selected) as Hin.
      { apply list_elem_of_In, filter_In. split; [by apply list_elem_of_In|].
        by rewrite E. }
      rewrite Hunsupported in Hin. by apply elem_of_nil in Hin.
  - apply list_elem_of_In, filter_In in Hm as [_ Hm].
    apply bool_decide_eq_true in Hm.
    by apply (sublist_subseteq _ _ (available_metrics_sublist rows)).
  - by apply (sublist_subseteq _ _ (available_metrics_sublist rows)).
Qed.

(** X11: the builder fails on a list exactly at its first name that is not
    a known metric, with a [KeyError] for that name. *)
Theorem build_metrics_unknown (pre post : list string) (bad : string) :
  Forall (λ m, m ∈ known_metrics) pre →
  bad ∉ known_metrics →
  build_metrics construct (pre ++ bad :: post) = Raise (KeyError bad).
Proof.
  tidy.
  intros Hpre Hbad. induction pre as [|name pre IH]; simpl.
  - change metric_class_names with known_metrics.
    by rewrite bool_decide_eq_false_2.
  - apply Forall_cons in Hpre as [Hname Hpre]. rewrite (IH Hpre).
    assert (Hname' := Hname). unfold known_metrics in Hname'.
    repeat (apply elem_of_cons in Hname' as [->|Hname']; [done|]).
    by apply elem_of_nil in Hname'.
Qed.

(** ** The metric list of the command line *)

Lemma split_not_nil (sep : ascii) (s : string) : PyStr.split sep s ≠ [].
Proof.
  tidy.
  induction s as [|c s IH]; simpl; [done|].
  destruct (Ascii.eqb c sep); [done|]. by destruct (PyStr.split sep s).
Qed.

Lemma split_pieces (sep : ascii) (s : string) :
  Forall (λ piece, sep ∉ chars piece) (PyStr.split sep s).
Proof.
  tidy.
  induction s as [|c s IH]; simpl.
  - constructor; [apply not_elem_of_nil|constructor].
  - destruct (Ascii.eqb c sep) eqn:E.
    + constructor; [apply not_elem_of_nil|done].
    + apply Ascii.eqb_neq in E.
      destruct (PyStr.split sep s) as [|first others]; simpl.
      * constructor; [|constructor]. simpl. by intros [->|?%elem_of_nil]%elem_of_cons.
      * apply Forall_cons in IH as [Hfirst Hothers]. constructor; [|done].
        simpl. by intros [->|?]%elem_of_cons.
Qed.

Lemma chars_lstrip (s : string) : chars (PyStr.lstrip s) ⊆ chars s.
Proof.
  tidy.
  induction s as [|c s IH]; simpl; [done|].
  destruct (PyStr.is_space c); [|done]. intros x Hx. right. by apply IH.
Qed.

Lemma chars_strip (s : string) : chars (PyStr.strip s) ⊆ chars s.
Proof.
  tidy.
  intros x. unfold PyStr.strip, PyStr.rstrip, String.rev.
  rewrite chars_rev_app. intros [Hx|?%elem_of_nil]; [|done].
  apply chars_lstrip in Hx. apply chars_rev_app in Hx as [Hx|?%elem_of_nil]; [|done].
  by apply chars_lstrip.
Qed.

(** X12: the parsed metric list is never an empty list: it is absent, or
    it has at least one name, and every name in it is non-empty, trimmed and
    free of commas. *)
Theorem parse_metric_list_names (raw : option string) (names : list string) :
  parse_metric_list raw = Some names →
  names ≠ []
  ∧ Forall (λ m, m ≠ "" ∧ PyStr.strip m = m ∧ ","%char ∉ chars m) names.
Proof.
  tidy.
  unfold parse_metric_list. destruct raw as [text|]; [|done].
  destruct (PyStr.truthy text); [|done].
  destruct (nonempty _) eqn:E; [|done]. intros [= <-].
  split; [by apply nonempty_spec|].
  apply Forall_forall. intros m Hm.
  apply list_elem_of_In, filter_In in Hm as [Hm Htruthy].
  apply in_map_iff in Hm as (piece & <- & Hpiece).
  split; [by apply truthy_spec|]. split; [apply strip_idempotent|].
  intros Hcomma. apply chars_strip in Hcomma.
  pose proof (split_pieces "," text) as Hpieces.
  rewrite Forall_forall in Hpieces.
  apply (Hpieces piece); [by apply list_elem_of_In|done].
Qed.

Lemma split_sep_free (sep : ascii) (s : string) :
  sep ∉ chars s → PyStr.split sep s = [s].
Proof.
  tidy.
  induction s as [|c s IH]; simpl; [done|]. intros Hsep.
  apply not_elem_of_cons in Hsep as [Hne Hsep].
  destruct (Ascii.eqb c sep) eqn:E; [by apply Ascii.eqb_eq in E|].
  by rewrite (IH Hsep).
Qed.

Lemma split_app_sep (sep : ascii) (s t : string) :
  sep ∉ chars s →
  PyStr.split sep (s +:+ String sep t) = s :: PyStr.split sep t.
Proof.
  tidy.
  induction s as [|c s IH]; intros Hsep.
  - change ("" +:+ String sep t) with (String sep t). simpl.
    by rewrite Ascii.eqb_refl.
  - rewrite string_app_cons. simpl in *.
    apply not_elem_of_cons in Hsep as [Hne Hsep].
    destruct (Ascii.eqb c sep) eqn:E; [by apply Ascii.eqb_eq in E|].
    by rewrite (IH Hsep).
Qed.

Lemma split_join (sep : ascii) (names : list string) :
  names ≠ [] →
  Forall (λ m, sep ∉ chars m) names →
  PyStr.split sep (PyStr.join (String sep "") names) = names.
Proof.
  tidy.
  induction names as [|m names IH]; [done|]. intros _ Hall.
  apply Forall_cons in Hall as [Hm Hall].
  destruct names as [|m' names]; simpl.
  - by apply split_sep_free.
  - change (String sep "" +:+ ?t) with (String sep t).
    rewrite split_app_sep by done. f_equal. by apply IH.
Qed.

(** X13: a non-empty list of names that are non-empty, trimmed and free of
    commas, joined with commas, parses back to the same list. *)
Theorem parse_metric_list_join (names : list string) :
  names ≠ [] →
  Forall (λ m, m ≠ "" ∧ PyStr.strip m = m ∧ ","%char ∉ chars m) names →
  parse_metric_list (Some (PyStr.join "," names)) = Some names.
Proof.
  tidy.
  intros Hne Hall. unfold parse_metric_list.
  assert (PyStr.truthy (PyStr.join "," names) = true) as ->.
  { apply truthy_spec. destruct names as [|m names]; [done|].
    apply Forall_cons in Hall as [(Hm & _) _].
    destruct m as [|c m]; [done|]. by destruct names. }
  rewrite (split_join "," names Hne).
  - assert (List.filter PyStr.truthy (map PyStr.strip names) = names) as ->.
    { clear Hne. induction names as [|m names IH]; [done|].
      apply Forall_cons in Hall as [(Hm & Hstrip & _) Hall]. simpl.
      rewrite Hstrip. apply truthy_spec in Hm. rewrite Hm. by rewrite IH. }
    apply nonempty_spec in Hne. by rewrite Hne.
  - eapply Forall_impl; [exact Hall|]. by intros m (_ & _ & ?).
Qed.

(** ** The region and the environment *)

Lemma str_or_head (x y : option string) :
  str_or x y
  = match x with
    | Some text => if decide (text ≠ "") then Some text else y
    | None => y
    end.
Proof.
  tidy.
  unfold str_or. destruct x as [text|]; [|done].
  destruct (PyStr.truthy text) eqn:E.
  - apply truthy_spec in E. by rewrite decide_True.
  - rewrite decide_False; [done|]. intros Hne. apply truthy_spec in Hne. congruence.
Qed.

Lemma head_candidates_cons (o : option string) (rest : list (option string)) :
  head (filter (λ text, text ≠ "") (omap id (o :: rest)))
  = match o with
    | Some text =>
        if decide (text ≠ "") then Some text
        else head (filter (λ text, text ≠ "") (omap id rest))
    | None => head (filter (λ text, text ≠ "") (omap id rest))
    end.
Proof.
  tidy.
  destruct o as [text|]; simpl; [|done].
  rewrite filter_cons. by destruct (decide (text ≠ "")).
Qed.

(** The chain of [or] picks the first non-empty candidate; without one it
    is [None] or the empty string. *)
Lemma str_or_chain (e r a d : option string) :
  match head (filter (λ text, text ≠ "") (omap id [e; r; a; d])) with
  | Some region => str_or e (str_or r (str_or a d)) = Some region ∧ region ≠ ""
  | None =>
      str_or e (str_or r (str_or a d)) = None
      ∨ str_or e (str_or r (str_or a d)) = Some ""
  end.
Proof.
  tidy.
  rewrite !head_candidates_cons, !str_or_head.
  destruct e as [e|]; [destruct (decide (e ≠ "")); [done|]|];
    (destruct r as [r|]; [destruct (decide (r ≠ "")); [done|]|]);
    (destruct a as [a|]; [destruct (decide (a ≠ "")); [done|]|]);
    (destruct d as [d|];
     [destruct (decide (d ≠ "")) as [|Hd]; [done|];
      right; by destruct (decide (d = "")) as [->|]
     |by left]).
Qed.

(** X14: the region is the first non-empty one among the explicit region
    and the variables RAGAS_AWS_REGION, AWS_REGION and AWS_DEFAULT_REGION, in
    that order; without one, resolving fails and the environment stays as it
    is. *)
Theorem resolve_region_first (explicit_region : option string)
    (environ : gmap string string) :
  let candidates :=
    filter (λ text, text ≠ "")
      (omap id [ explicit_region; environ !! "RAGAS_AWS_REGION";
                 environ !! "AWS_REGION"; environ !! "AWS_DEFAULT_REGION" ]) in
  match head candidates with
  | Some region => snd (resolve_region explicit_region environ) = Ok region
  | None =>
      resolve_region explicit_region environ
      = (environ,
         Raise (ValueError
                  "Missing AWS region. Pass --region or set AWS_DEFAULT_REGION."))
  end.
Proof.
  tidy.
  intros candidates. subst candidates.
  pose proof (str_or_chain explicit_region (environ !! "RAGAS_AWS_REGION")
                (environ !! "AWS_REGION") (environ !! "AWS_DEFAULT_REGION")) as H.
  unfold resolve_region.
  destruct (head _) as [region|].
  - destruct H as [-> Hne]. apply truthy_spec in Hne. by rewrite Hne.
  - by destruct H as [-> | ->].
Qed.

Lemma lookup_environ_setdefault (environ : gmap string string)
    (key value key' : string) :
  environ_setdefault environ key value !! key'
  = if decide (key = key') then Some (default value (environ !! key))
    else environ !! key'.
Proof.
  tidy.
  unfold environ_setdefault. destruct (decide (key = key')) as [<-|Hne].
  - destruct (environ !! key) as [old|] eqn:E; simpl; [done|].
    by rewrite lookup_insert_eq.
  - destruct (environ !! key); [done|]. by rewrite lookup_insert_ne.
Qed.

(** X15: resolving a region never overwrites a variable: afterwards
    AWS_REGION, AWS_DEFAULT_REGION and AWS_REGION_NAME hold what they held
    before, the empty string included, or else the region, and every other
    variable is as it was. *)
Theorem resolve_region_environ (explicit_region : option string)
    (environ : gmap string string) (region key : string) :
  snd (resolve_region explicit_region environ) = Ok region →
  region ≠ ""
  ∧ fst (resolve_region explicit_region environ) !! key
    = if decide (key ∈ ["AWS_REGION"; "AWS_DEFAULT_REGION"; "AWS_REGION_NAME"])
      then Some (default region (environ !! key))
      else environ !! key.
Proof.
  tidy.
  unfold resolve_region.
  destruct (str_or _ _) as [text|]; [|done].
  destruct (PyStr.truthy text) eqn:E; [|done]. simpl. intros [= ->].
  split; [by apply truthy_spec|].
  rewrite !lookup_environ_setdefault.
  repeat case_decide; simplify_eq/=; try done; set_solver.
Qed.

(** ** Normalized values *)

Lemma value_induction (P : @value float → Prop) :
  P VNone →
  (∀ b, P (VBool b)) →
  (∀ n, P (VInt n)) →
  (∀ x, P (VFloat x)) →
  (∀ s, P (VStr s)) →
  (∀ items, Forall P items → P (VList items)) →
  (∀ items, Forall P items → P (VTuple items)) →
  (∀ items, Forall (λ kv, P (snd kv)) items → P (VDict items)) →
  (∀ item repr, (∀ result, item = Some (Some result) → P result) →
                P (VObject item repr)) →
  ∀ v, P v.
Proof.
  tidy.
  intros HNone HBool HInt HFloat HStr HList HTuple HDict HObject.
  fix IH 1. intros [ | b | n | x | s | items | items | items | item repr].
  - exact HNone.
  - apply HBool.
  - apply HInt.
  - apply HFloat.
  - apply HStr.
  - apply HList. induction items as [|v items IHitems]; constructor;
      [apply IH|exact IHitems].
  - apply HTuple. induction items as [|v items IHitems]; constructor;
      [apply IH|exact IHitems].
  - apply HDict. induction items as [|[k v] items IHitems]; constructor;
      [apply IH|exact IHitems].
  - apply HObject.
    destruct item as [[result|]|]; intros r Heq;
      [|discriminate Heq|discriminate Heq].
    injection Heq as <-. apply IH.
Qed.

Lemma normalize_json_value_fixed v :
  json_value v = true → normalize_json_value v = v.
Proof.
  tidy.
  induction v as [ | | | | |items IH|items IH|items IH|item repr IH]
    using value_induction; simpl; try done.
  - intros Hall. f_equal. rewrite forallb_forall in Hall.
    induction items as [|v items IHitems]; [done|].
    apply Forall_cons in IH as [Hv IH]. simpl. f_equal.
    + apply Hv, Hall. by left.
    + apply IHitems; [done|]. intros w Hw. apply Hall. by right.
  - intros Hall. f_equal. rewrite forallb_forall in Hall.
    induction items as [|[k v] items IHitems]; [done|].
    apply Forall_cons in IH as [Hv IH]. simpl in *. f_equal.
    + f_equal. apply Hv, (Hall (k, v)). by left.
    + apply IHitems; [done|]. intros w Hw. apply Hall. by right.
Qed.

(** X16: on a value made of JSON types only, normalizing changes nothing:
    the copy is equal to the original. *)
Theorem normalize_json_value_identity v :
  json_value v = true → normalize_json_value v = v.
Proof. tidy. apply normalize_json_value_fixed. Qed.

(** X17: when every [item()] that succeeds inside a value returns a JSON
    value, the normalized value is a JSON value, and normalizing it again
    changes nothing. *)
Theorem normalize_json_value_json v :
  items_json v = true →
  json_value (normalize_json_value v) = true
  ∧ normalize_json_value (normalize_json_value v) = normalize_json_value v.
Proof.
  tidy.
  intros Hitems.
  assert (json_value (normalize_json_value v) = true) as Hjson.
  { revert Hitems.
    induction v as [ | | | | |items IH|items IH|items IH|item repr IH]
      using value_induction; simpl; try done.
    - intros Hall. rewrite forallb_forall in Hall. apply forallb_forall.
      intros w Hw. apply in_map_iff in Hw as (v & <- & Hv).
      rewrite Forall_forall in IH. apply IH; [by apply list_elem_of_In|by apply Hall].
    - intros Hall. rewrite forallb_forall in Hall. apply forallb_forall.
      intros w Hw. apply in_map_iff in Hw as (v & <- & Hv).
      rewrite Forall_forall in IH. apply IH; [by apply list_elem_of_In|by apply Hall].
    - intros Hall. rewrite forallb_forall in Hall. apply forallb_forall.
      intros w Hw. apply in_map_iff in Hw as (kv & <- & Hkv). simpl.
      rewrite Forall_forall in IH.
      apply (IH kv); [by apply list_elem_of_In|by apply Hall].
    - by destruct item as [[result|]|]. }
  split; [done|]. by apply normalize_json_value_fixed.
Qed.

(** ** When scoring completes *)

Local Abbreviation scorer_world := (scorer_world evaluate).

Lemma merge_scores_result h name (metric_rows : list row) :
  ∀ (copies : list row) (index : nat),
    index ≤ length copies →
    snd (merge_scores (h ++ copies) (seq (length h) (length copies))
           name index metric_rows)
    = if decide (index + length metric_rows ≤ length copies) then Ok tt
      else Raise (IndexError "list index out of range").
Proof.
  induction metric_rows as [|metric_row rest IH]; intros copies index Hindex; simpl.
  - by rewrite decide_True by lia.
  - destruct (decide (index < length copies)) as [Hlt|Hge].
    + rewrite lookup_seq_lt by done. unfold set_item. rewrite alter_app_r.
      set (copies1 :=
             alter (λ r, dict_set r name (row_get metric_row name)) index copies).
      assert (length copies1 = length copies) as Hlen by apply length_alter.
      rewrite <- Hlen, IH by lia. rewrite Hlen.
      destruct (decide (S index + length rest ≤ length copies));
        [by rewrite decide_True by lia|by rewrite decide_False by lia].
    + rewrite lookup_seq_ge by lia. simpl. by rewrite decide_False by lia.
Qed.

(** A call of [score_metric] returns one row per record of the scorer. *)
Lemma result_fits_outcome (n : nat) (name : string) outcome :
  outcome_fits n outcome = true → result_fits n (metric_result name outcome) = true.
Proof.
  destruct outcome as [message|records]; [done|].
  cbn [outcome_fits metric_result]. unfold score_records.
  destruct (numeric_values _ _) as [error|values]; [done|].
  destruct (average_of _ _) as [error|average]; [done|].
  cbn [result_fits]. by rewrite length_map.
Qed.

Lemma score_loop_result rows h metrics :
  Forall (λ l, l < length h) rows →
  ∀ (copies : list row) st,
    sc_heap st = h ++ copies →
    snd (score_loop rows (seq (length h) (length copies)) st metrics)
    = (if forallb (result_fits (length copies))
            (metric_results (sc_world st) (map (deref h) rows) metrics)
       then Ok tt else Raise (IndexError "list index out of range"))
    ∧ (snd (score_loop rows (seq (length h) (length copies)) st metrics) = Ok tt →
       sc_world (fst (score_loop rows (seq (length h) (length copies)) st metrics))
       = scorer_world (sc_world st) (map (deref h) rows) metrics).
Proof.
  intros Hrows. induction metrics as [|metric metrics IH]; intros copies st Hheap;
    [done|].
  cbn [score_loop metric_results scorer_world]. rewrite score_metric_result.
  destruct (score_step_outcome rows (seq (length h) (length copies)) st metric)
    as [Hworld Hcase].
  destruct (score_step_shape rows h copies st metric Hheap) as (copies1 & H1 & Hlen1).
  rewrite Hheap, map_deref_app_l in Hworld, Hcase by done.
  destruct (evaluate (sc_world st) (map (deref h) rows) metric) as [w1 outcome].
  cbn [fst snd] in Hworld, Hcase |- *.
  destruct (score_step rows (seq (length h) (length copies)) st metric)
    as [st1 res]. cbn [fst snd] in Hworld, Hcase, H1. subst w1.
  destruct (metric_result (metric_name metric) outcome)
    as [message|[metric_rows average]]; cbn [forallb result_fits andb].
  - destruct Hcase as (-> & _). rewrite <- Hlen1. by apply IH.
  - destruct Hcase as (_ & _ & Hcase).
    rewrite merge_scores_result in Hcase by lia.
    rewrite Nat.add_0_l in Hcase.
    destruct (decide (length metric_rows ≤ length copies)) as [Hfit|Hfit].
    + destruct Hcase as [-> _].
      apply Nat.leb_le in Hfit. rewrite Hfit. cbn [andb].
      rewrite <- Hlen1. by apply IH.
    + destruct Hcase as [-> _].
      apply Nat.leb_nle in Hfit. rewrite Hfit. done.
Qed.

(** X18: [score_rows] returns normally when every call of [score_metric]
    that returns gives at most one scored row per row of the group, a call
    that raises being caught; as soon as a call returns more, it raises an
    [IndexError]; it raises nothing else. *)
Theorem score_rows_completes (w : World) h rows metrics :
  Forall (λ l, l < length h) rows →
  let fits :=
    forallb (result_fits (length rows))
      (metric_results w (map (deref h) rows) metrics) in
  (fits = true →
   ∃ h' group_summary failures,
     score_rows w h rows metrics
     = (scorer_world w (map (deref h) rows) metrics, h',
        Ok (seq (length h) (length rows), group_summary, failures)))
  ∧ (fits = false →
     snd (score_rows w h rows metrics)
     = Raise (IndexError "list index out of range")).
Proof.
  intros Hrows fits. subst fits.
  destruct (score_rows_unfold w h rows metrics)
    as (copies & Hlen & _ & _ & Hscore).
  destruct (score_loop_result rows h metrics Hrows copies
              (Scoring w (h ++ copies) ∅ ∅) eq_refl) as [Hres Hworld].
  cbn [sc_world] in Hres, Hworld. rewrite Hscore.
  destruct (score_loop _ _ _ metrics) as [st res]. cbn [fst snd] in Hres, Hworld.
  subst res. rewrite <- Hlen.
  destruct (forallb _ _).
  - split; [|done]. intros _. rewrite (Hworld eq_refl). eauto.
  - split; [done|]. done.
Qed.

(** ** Scores by position *)

Lemma deref_app_r h (copies : list row) (j : nat) :
  deref (h ++ copies) (length h + j) = default [] (copies !! j).
Proof.
  unfold deref. rewrite lookup_app_r by lia.
  by replace (length h + j - length h) with j by lia.
Qed.

Lemma merge_scores_content h name (metric_rows : list row) :
  ∀ (copies : list row) (index : nat),
    index + length metric_rows ≤ length copies →
    ∀ j,
      dict_get
        (deref (fst (merge_scores (h ++ copies) (seq (length h) (length copies))
                       name index metric_rows)) (length h + j)) name
      = if decide (index ≤ j < index + length metric_rows)
        then (λ metric_row, row_get metric_row name) <$> metric_rows !! (j - index)
        else dict_get (deref (h ++ copies) (length h + j)) name.
Proof.
  induction metric_rows as [|metric_row rest IH]; intros copies index Hfit j; simpl.
  - by rewrite decide_False by lia.
  - simpl in Hfit. rewrite lookup_seq_lt by lia. unfold set_item.
    rewrite alter_app_r.
    set (copies1 :=
           alter (λ r, dict_set r name (row_get metric_row name)) index copies).
    assert (length copies1 = length copies) as Hlen by apply length_alter.
    rewrite <- Hlen, IH by lia. rewrite !deref_app_r.
    destruct (decide (j = index)) as [->|Hj].
    + rewrite decide_False by lia. rewrite decide_True by lia.
      rewrite Nat.sub_diag. simpl. unfold copies1.
      rewrite list_lookup_alter_eq.
      destruct (lookup_lt_is_Some_2 copies index) as [r Hr]; [lia|].
      rewrite Hr. simpl. apply dict_get_set_eq.
    + unfold copies1. rewrite list_lookup_alter_ne by done.
      destruct (decide (S index ≤ j < S index + length rest)) as [Hin|Hout].
      * rewrite decide_True by lia.
        replace (j - index) with (S (j - S index)) by lia. done.
      * by rewrite decide_False by lia.
Qed.

(** The loop up to a metric, its iteration and the rest of the loop. *)
Lemma score_loop_split rows h (copies : list row) (pre post : list Metric)
    metric st0 st :
  Forall (λ l, l < length h) rows →
  sc_heap st0 = h ++ copies →
  score_loop rows (seq (length h) (length copies)) st0 (pre ++ metric :: post)
  = (st, Ok tt) →
  ∃ st1 st2 (copies1 : list row),
    score_loop rows (seq (length h) (length copies)) st0 pre = (st1, Ok tt)
    ∧ sc_heap st1 = h ++ copies1
    ∧ length copies1 = length copies
    ∧ score_step rows (seq (length h) (length copies)) st1 metric = (st2, Ok tt)
    ∧ score_loop rows (seq (length h) (length copies)) st2 post = (st, Ok tt)
    ∧ scorer_outcomes (sc_world st0) (map (deref h) rows) (pre ++ metric :: post)
        !! length pre
      = Some (snd (evaluate (sc_world st1) (map (deref h) rows) metric)).
Proof.
  intros Hrows Hheap Hloop. rewrite score_loop_app in Hloop.
  destruct (score_loop_shape rows h copies pre st0 Hheap) as (copies1 & H1 & Hlen1).
  destruct (score_loop rows (seq (length h) (length copies)) st0 pre)
    as [st1 [[]|e]] eqn:Epre; [|done].
  simpl in H1, Hloop.
  destruct (score_step rows (seq (length h) (length copies)) st1 metric)
    as [st2 [[]|e]] eqn:Estep; [|done].
  exists st1, st2, copies1. repeat (split; [done|]).
  rewrite (score_loop_outcomes rows h pre (metric :: post) Hrows copies st0 st1)
    by done.
  rewrite lookup_app_r by (rewrite length_scorer_outcomes; lia).
  rewrite length_scorer_outcomes, Nat.sub_diag. cbn [scorer_outcomes].
  by destruct (evaluate (sc_world st1) (map (deref h) rows) metric).
Qed.

(** X19: after scoring a list of metrics with pairwise distinct names, for
    a metric for which the scorer returned records: when [score_metric]
    returns, the scored row at a position carries under the metric's name
    the score of the record at that position; when it raises, because the
    conversion of a score to a float or the mean does, every scored row
    carries null. *)
Theorem score_rows_scores_by_position (w w' : World) h h' rows metrics scored
    (group_summary : gmap string float) (failures : gmap string string)
    (i : nat) metric (records : list row) :
  Forall (λ l, l < length h) rows →
  NoDup (map metric_name metrics) →
  score_rows w h rows metrics = (w', h', Ok (scored, group_summary, failures)) →
  metrics !! i = Some metric →
  scorer_outcomes w (map (deref h) rows) metrics !! i = Some (ScorerRecords records) →
  let name := metric_name metric in
  (∀ metric_rows average,
     score_records name records = inr (metric_rows, average) →
     ∀ (j l : nat) (record : row),
       records !! j = Some record →
       scored !! j = Some l →
       dict_get (deref h' l) name = Some (row_get (normalize_row record) name))
  ∧ (∀ error,
       score_records name records = inl error →
       Forall (λ l, dict_get (deref h' l) name = Some VNone) scored).
Proof.
  intros Hrows Hnd Hrun Hi Hout name. subst name.
  destruct (score_rows_unfold w h rows metrics) as (copies & Hlen & _ & _ & Hscore).
  rewrite Hscore in Hrun. clear Hscore.
  destruct (score_loop _ _ _ metrics) as [st [[]|e]] eqn:Hloop; [|done].
  injection Hrun as <- <- <- <- <-.
  pose proof (take_drop_middle metrics i metric Hi) as Hsplit.
  rewrite <- Hsplit in Hnd, Hloop, Hout.
  rewrite map_app in Hnd. simpl in Hnd.
  apply NoDup_app in Hnd as (_ & _ & Hpost).
  apply NoDup_cons in Hpost as [Hpost _].
  assert (length (take i metrics) = i) as Hleni.
  { apply length_take_le. apply lookup_lt_Some in Hi. lia. }
  destruct (score_loop_split rows h copies (take i metrics) (drop (S i) metrics)
              metric (Scoring w (h ++ copies) ∅ ∅) st Hrows eq_refl Hloop)
    as (st1 & st2 & copies1 & _ & H1 & Hlen1 & Hstep & Hrest & Hout').
  rewrite Hleni in Hout'. simpl in Hout'. rewrite Hout in Hout'.
  injection Hout' as Hout'.
  assert (Hkeep : ∀ l, dict_get (deref (sc_heap st) l) (metric_name metric)
                       = dict_get (deref (sc_heap st2) l) (metric_name metric)).
  { intros l.
    pose proof (score_loop_other_key rows (seq (length h) (length copies))
                  l (metric_name metric) (drop (S i) metrics) Hpost st2) as Hkeep.
    by rewrite Hrest in Hkeep. }
  destruct (score_step_outcome rows (seq (length h) (length copies)) st1 metric)
    as [_ Hcase].
  rewrite H1, map_deref_app_l in Hcase by done.
  rewrite <- Hout', Hstep in Hcase. cbn [fst snd metric_result] in Hcase.
  split.
  - intros metric_rows average Hresult j l record Hj Hl.
    apply lookup_seq in Hl as [-> Hjlt]. rewrite Hkeep.
    rewrite Hresult in Hcase. destruct Hcase as (-> & _ & Hcase).
    assert (metric_rows = map normalize_row records) as ->.
    { unfold score_records in Hresult.
      destruct (numeric_values _ _) as [?|values]; [done|].
      destruct (average_of _ _) as [?|?]; [done|]. by injection Hresult as <- _. }
    rewrite <- Hlen1 in Hcase |- *.
    pose proof (merge_scores_result h (metric_name metric) (map normalize_row records)
                  copies1 0 (Nat.le_0_l _)) as Hres.
    rewrite Hres in Hcase. clear Hres.
    destruct (decide (0 + length (map normalize_row records) ≤ length copies1))
      as [Hfit|Hfit]; [|by destruct Hcase].
    rewrite merge_scores_content by done.
    apply lookup_lt_Some in Hj as Hjlen.
    rewrite decide_True by (rewrite length_map; lia).
    by rewrite Nat.sub_0_r, list_lookup_fmap, Hj.
  - intros error Hresult. rewrite Hresult in Hcase.
    destruct Hcase as (_ & Hheap & _).
    apply Forall_forall. intros l Hl. rewrite Hkeep, Hheap.
    unfold set_all_none. rewrite <- Hlen1, set_item_fold_seq.
    apply elem_of_seq in Hl as [Hge Hlt].
    unfold deref. rewrite lookup_app_r by exact Hge.
    rewrite list_lookup_fmap.
    destruct (lookup_lt_is_Some_2 copies1 (l - length h)) as [r Hr]; [lia|].
    rewrite Hr. simpl. apply dict_get_set_eq.
Qed.

(** ** The run over the groups *)

Lemma group_rows_total_row_count_aux h (rows : list nat) (group_by : string) :
  total_row_count (group_rows h rows group_by) = length rows.
Proof. unfold group_rows. by rewrite total_row_count_fold. Qed.

Local Abbreviation process_groups :=
  (process_groups float_of_int fmean name_attr class_name evaluate construct).
Local Abbreviation evaluate_rows :=
  (evaluate_rows float_of_int fmean name_attr class_name evaluate construct).

Implicit Types (run_state final : @run float World).

Lemma score_rows_shape (w : World) h rows metrics :
  ∃ copies : list row,
    length copies = length rows
    ∧ snd (fst (score_rows w h rows metrics)) = h ++ copies
    ∧ ∀ scored group_summary failures,
        snd (score_rows w h rows metrics) = Ok (scored, group_summary, failures) →
        scored = seq (length h) (length rows).
Proof.
  destruct (score_rows_unfold w h rows metrics) as (copies & Hlen & _ & _ & Hscore).
  destruct (score_loop_shape rows h copies metrics (Scoring w (h ++ copies) ∅ ∅)
              eq_refl) as (copies' & Hheap & Hlen').
  exists copies'. rewrite Hscore.
  destruct (score_loop _ _ _ metrics) as [st [[]|e]]; simpl in *.
  - split; [lia|]. split; [done|]. intros scored s f [= <- _ _]. by rewrite Hlen.
  - split; [lia|]. split; [done|]. done.
Qed.

Lemma tag_rows_new h (copies : list row) (group_name : string) :
  tag_rows (h ++ copies) (seq (length h) (length copies)) group_name
  = h ++ map (λ r, dict_set r "evaluation_group" (VStr group_name)) copies.
Proof. apply set_item_fold_seq. Qed.

(** What the iteration for a group does to the variables of the run. *)
Lemma process_group_effect (requested : option (list string)) run_state
    (group_name : string) (group_rows_list : list nat) :
  let result := process_group requested run_state group_name group_rows_list in
  (∃ new : list row, run_heap (fst result) = run_heap run_state ++ new)
  ∧ (snd result = Ok tt →
     ∃ (report : @GroupReport float) (new : list row),
       run_heap (fst result) = run_heap run_state ++ new
       ∧ length new = length group_rows_list
       ∧ Forall (λ r, dict_get r "evaluation_group" = Some (VStr group_name)) new
       ∧ groups_output (fst result)
         = dict_set (groups_output run_state) group_name report
       ∧ failures_by_group (fst result)
         = dict_set (failures_by_group run_state) group_name (metric_failures report)
       ∧ row_count report = length group_rows_list
       ∧ report_rows report
         = seq (length (run_heap run_state)) (length group_rows_list)
       ∧ flattened_rows (fst result) = flattened_rows run_state ++ report_rows report).
Proof.
  intros result. subst result. unfold process_group.
  assert (Hself : ∃ new : list row, run_heap run_state = run_heap run_state ++ new).
  { exists []. by rewrite app_nil_r. }
  assert (Htag : ∀ copies : list row,
    Forall (λ r, dict_get r "evaluation_group" = Some (VStr group_name))
      (map (λ r, dict_set r "evaluation_group" (VStr group_name)) copies)).
  { intros copies. apply Forall_forall. intros r Hr.
    apply list_elem_of_fmap in Hr as (r0 & -> & _). apply dict_get_set_eq. }
  destruct (pick_metric_names _ requested group_name)
    as [[metric_names available]|e]; [|by split].
  destruct (nonempty metric_names); simpl.
  - destruct (build_metrics construct metric_names) as [metrics|e]; [|by split].
    destruct (score_rows_shape (run_world run_state) (run_heap run_state)
                group_rows_list metrics) as (copies & Hlen & Hheap & Hscored).
    destruct (score_rows (run_world run_state) (run_heap run_state)
                group_rows_list metrics) as [[w' h'] [[[scored s] f]|e]];
      simpl in Hheap; subst h'; simpl.
    + rewrite (Hscored scored s f eq_refl), <- Hlen, tag_rows_new.
      split; [eauto|]. intros _. eexists _, _.
      split; [done|]. rewrite length_map. split; [done|]. split; [apply Htag|].
      simpl. by rewrite Hlen.
    + split; [eauto|done].
  - destruct (copy_rows_shape (run_heap run_state) group_rows_list)
      as (copies & -> & Hlen).
    rewrite <- Hlen, tag_rows_new. simpl.
    split; [eauto|]. intros _. eexists _, _.
    split; [done|]. rewrite length_map. split; [done|]. split; [apply Htag|].
    simpl. by rewrite Hlen.
Qed.

Lemma dict_set_fresh {V} (d : dict V) (key : string) (x : V) :
  key ∉ map fst d → dict_set d key x = d ++ [(key, x)].
Proof.
  induction d as [|[k y] d IH]; simpl; [done|]. intros Hkey.
  apply not_elem_of_cons in Hkey as [Hne Hkey].
  destruct (String.eqb k key) eqn:E; [by apply String.eqb_eq in E|].
  by rewrite IH.
Qed.

(** What the loop over the groups does to the variables of the run. *)
Lemma process_groups_effect (requested : option (list string))
    (grouped : dict (list nat)) :
  ∀ run_state,
    let result := process_groups requested run_state grouped in
    (∃ new : list row, run_heap (fst result) = run_heap run_state ++ new)
    ∧ (snd result = Ok tt →
       NoDup (map fst grouped) →
       (∀ k, k ∈ map fst grouped → k ∉ map fst (groups_output run_state)) →
       ∃ (reports : dict (@GroupReport float)) (new : list row),
         run_heap (fst result) = run_heap run_state ++ new
         ∧ length new = total_row_count grouped
         ∧ groups_output (fst result) = groups_output run_state ++ reports
         ∧ map fst reports = map fst grouped
         ∧ map (λ e, row_count (snd e)) reports = map (λ g, length (snd g)) grouped
         ∧ flattened_rows (fst result)
           = flattened_rows run_state ++ concat (map (λ e, report_rows (snd e)) reports)
         ∧ concat (map (λ e, report_rows (snd e)) reports)
           = seq (length (run_heap run_state)) (total_row_count grouped)
         ∧ Forall (λ e,
             Forall (λ l, dict_get (deref (run_heap (fst result)) l) "evaluation_group"
                          = Some (VStr (fst e)))
               (report_rows (snd e))) reports).
Proof.
  induction grouped as [|[group_name members] grouped IH]; intros run_state result;
    subst result; simpl.
  - split; [exists []; by rewrite app_nil_r|]. intros _ _ _.
    exists [], []. rewrite !app_nil_r. by repeat split.
  - destruct (process_group_effect requested run_state group_name members)
      as [Hframe Hok].
    destruct (process_group requested run_state group_name members)
      as [st1 [[]|e]]; simpl in Hframe, Hok; [|by split].
    destruct (IH st1) as [Hframe' Hok']. split.
    + destruct Hframe as [new1 H1], Hframe' as [new2 H2].
      exists (new1 ++ new2). by rewrite H2, H1, app_assoc.
    + intros Hres Hnd Hfresh.
      apply NoDup_cons in Hnd as [Hname Hnd].
      destruct (Hok eq_refl)
        as (report & new1 & H1 & Hlen1 & Htag1 & Hout1 & _ & Hcount1 & Hrows1 & Hflat1).
      rewrite dict_set_fresh in Hout1 by (apply Hfresh; by left).
      destruct (Hok' Hres Hnd) as
        (reports & new2 & H2 & Hlen2 & Hout2 & Hkeys2 & Hcounts2 & Hflat2 & Hseq2 & Htags2).
      { intros k Hk. rewrite Hout1, map_app, not_elem_of_app. split.
        - apply Hfresh. by right.
        - simpl. intros ->%list_elem_of_singleton. done. }
      exists ((group_name, report) :: reports), (new1 ++ new2).
      split; [by rewrite H2, H1, app_assoc|].
      split; [rewrite length_app; unfold total_row_count in *; simpl; lia|].
      split; [by rewrite Hout2, Hout1, <- app_assoc|].
      split; [simpl; by rewrite Hkeys2|].
      split; [simpl; by rewrite Hcounts2, Hcount1|].
      split; [simpl; by rewrite Hflat2, Hflat1, <- app_assoc|].
      split.
      { simpl. rewrite Hseq2, Hrows1, H1, length_app, Hlen1.
        unfold total_row_count. simpl. by rewrite seq_app. }
      constructor; [|done]. simpl. rewrite Hrows1.
      apply Forall_forall. intros l Hl. apply elem_of_seq in Hl as [Hge Hlt].
      rewrite H2, H1. rewrite deref_app_l by (rewrite length_app; lia).
      replace l with (length (run_heap run_state) + (l - length (run_heap run_state)))
        by lia.
      rewrite deref_app_r.
      destruct (lookup_lt_is_Some_2 new1 (l - length (run_heap run_state)))
        as [r Hr]; [lia|].
      rewrite Hr. simpl. rewrite Forall_forall in Htag1.
      apply Htag1. by eapply list_elem_of_lookup_2.
Qed.

Lemma group_rows_NoDup h (rows : list nat) (group_by : string) :
  NoDup (map fst (group_rows h rows group_by)).
Proof. apply (group_fold_NoDup h group_by rows []). constructor. Qed.

(** X20: whatever a run does, and whether it completes or raises, it leaves
    every row that was on the heap as it was: the heap it leaves is the old
    heap followed by new dicts. *)
Theorem evaluate_rows_frame (w : World) h (rows : list nat) (group_by : string)
    (requested : option (list string)) :
  ∃ new : list row,
    run_heap (fst (evaluate_rows w h rows group_by requested)) = h ++ new.
Proof.
  unfold evaluate_rows.
  destruct (negb (bool_decide _)); [exists []; by rewrite app_nil_r|].
  destruct (negb (nonempty rows)); [exists []; by rewrite app_nil_r|].
  apply (process_groups_effect requested (group_rows h rows group_by)
           (Run w h [] [] [] [])).
Qed.

(** X21: a run that completes reports one group per key, in the order of
    the groups, with the number of rows of the group; the flattened rows are
    the rows of the reports in that order, one new dict per input row; and
    every row of a report carries the key of its group as
    [evaluation_group]. *)
Theorem evaluate_rows_report (w : World) h (rows : list nat) (group_by : string)
    (requested : option (list string)) final :
  evaluate_rows w h rows group_by requested = (final, Ok tt) →
  let grouped := group_rows h rows group_by in
  map fst (groups_output final) = map fst grouped
  ∧ map (λ e, row_count (snd e)) (groups_output final)
    = map (λ g, length (snd g)) grouped
  ∧ flattened_rows final
    = concat (map (λ e, report_rows (snd e)) (groups_output final))
  ∧ flattened_rows final = seq (length h) (length rows)
  ∧ length (run_heap final) = length h + length rows
  ∧ Forall (λ e,
      Forall (λ l, dict_get (deref (run_heap final) l) "evaluation_group"
                   = Some (VStr (fst e)))
        (report_rows (snd e))) (groups_output final).
Proof.
  unfold evaluate_rows.
  destruct (negb (bool_decide _)); [done|].
  destruct (negb (nonempty rows)); [done|].
  intros Hrun. cbv zeta.
  destruct (process_groups_effect requested (group_rows h rows group_by)
              (Run w h [] [] [] [])) as [_ Hok].
  rewrite Hrun in Hok. simpl in Hok.
  destruct (Hok eq_refl (group_rows_NoDup h rows group_by))
    as (reports & new & Hheap & Hlen & Hout & Hkeys & Hcounts & Hflat & Hseq & Htags).
  { intros k _. apply not_elem_of_nil. }
  rewrite group_rows_total_row_count_aux in Hlen, Hseq.
  simpl in Hout, Hflat, Hheap, Hseq. rewrite Hout, Hflat, Hseq, Hheap.
  split_and!; try done.
  - by rewrite length_app, Hlen.
  - simpl in Htags. by rewrite Hheap in Htags.
Qed.

Lemma pick_metric_names_unsupported (rows : list row) (requested : list string)
    (group_name : string) :
  Exists (λ m, m ∉ known_metrics) requested →
  pick_metric_names rows (Some requested) group_name
  = Raise (UnsupportedMetricError
             (PyStr.sorted (filter (λ m, m ∉ known_metrics) requested))
             (PyStr.sorted known_metrics)).
Proof.
  intros Hex. unfold pick_metric_names.
  change (default [] (Some requested)) with requested.
  assert (requested ≠ []) as Hne%nonempty_spec.
  { intros ->. by apply Exists_nil in Hex. }
  rewrite Hne.
  rewrite (List_filter_decide (λ m, m ∉ known_metrics)) by apply requirements_known.
  assert (filter (λ m, m ∉ known_metrics) requested ≠ []) as Hbad%nonempty_spec.
  { intros Hnil. apply filter_nil_Forall in Hnil.
    apply Exists_exists in Hex as (m & Hm & Hout).
    rewrite Forall_forall in Hnil. by apply (Hnil m). }
  by rewrite Hbad.
Qed.

Lemma group_rows_cons h (l : nat) (rows : list nat) (group_by : string) :
  ∃ members rest,
    group_rows h (l :: rows) group_by = (key_of h group_by l, members) :: rest.
Proof.
  pose proof (group_fold_keys h group_by rows
                (setdefault_append [] (key_of h group_by l) l)) as Hkeys.
  change (group_fold h group_by rows (setdefault_append [] (key_of h group_by l) l))
    with (group_rows h (l :: rows) group_by) in Hkeys.
  destruct (group_rows h (l :: rows) group_by) as [|[k members] rest]; [done|].
  simpl in Hkeys. injection Hkeys as -> _. eauto.
Qed.

(** X22: with a requested metric that is not a known one, a run over a
    non-empty input stops at the first group with the UnsupportedMetricError:
    no row is copied, no group is reported and the scorer is never called. *)
Theorem evaluate_rows_unsupported (w : World) h (rows : list nat)
    (group_by : string) (requested : list string) :
  group_by ∈ ["category"; "none"] →
  rows ≠ [] →
  Exists (λ m, m ∉ known_metrics) requested →
  evaluate_rows w h rows group_by (Some requested)
  = (Run w h [] [] [] [],
     Raise (UnsupportedMetricError
              (PyStr.sorted (filter (λ m, m ∉ known_metrics) requested))
              (PyStr.sorted known_metrics))).
Proof.
  intros Hmode Hrows Hex. unfold evaluate_rows.
  rewrite bool_decide_eq_true_2 by done. apply nonempty_spec in Hrows as Hne.
  rewrite Hne. simpl.
  destruct rows as [|l rows]; [done|].
  destruct (group_rows_cons h l rows group_by) as (members & rest & ->).
  simpl. unfold process_group.
  by rewrite pick_metric_names_unsupported.
Qed.

(** ** Runs that complete *)

Lemma pick_metric_names_known (rows : list row) (requested : option (list string))
    (group_name : string) (selected eligible_names : list string) :
  pick_metric_names rows requested group_name = Ok (selected, eligible_names) →
  Forall (λ m, m ∈ known_metrics) selected.
Proof.
  intros Hpick. apply Forall_forall. intros m Hm.
  apply pick_metric_names_cases in Hpick as [_ Hcases].
  destruct Hcases
    as [(_ & _ & Hunsupported & _)|[_ [(preferred & _ & -> & _)| ->]]].
  - destruct (dict_mem requirements m) eqn:E.
    + by apply dict_mem_spec in E.
    + assert (m ∈ List.filter (λ m, negb (dict_mem requirements m)) selected) as Hin.
      { apply list_elem_of_In, filter_In. split; [by apply list_elem_of_In|].
        by rewrite E. }
      rewrite Hunsupported in Hin. by apply elem_of_nil in Hin.
  - apply list_elem_of_In, filter_In in Hm as [_ Hm].
    apply bool_decide_eq_true in Hm.
    by apply (sublist_subseteq _ _ (available_metrics_sublist rows)).
  - by apply (sublist_subseteq _ _ (available_metrics_sublist rows)).
Qed.

Lemma pick_metric_names_auto_ok (rows : list row) (requested : option (list string))
    (group_name : string) :
  nonempty (default [] requested) = false →
  ∃ selected, pick_metric_names rows requested group_name
              = Ok (selected, available_metrics rows).
Proof.
  intros Hauto. unfold pick_metric_names. rewrite Hauto.
  destruct (get_default_metric_preferences group_name) as [preferred|]; [|eauto].
  destruct (nonempty preferred); [|eauto].
  destruct (nonempty (List.filter _ preferred)); eauto.
Qed.

Lemma scorer_outcomes_fit (n : nat) (contents : list row) metrics :
  (∀ (w : World) metric,
     outcome_fits n (snd (evaluate w contents metric)) = true) →
  ∀ w : World, forallb (result_fits n) (metric_results w contents metrics) = true.
Proof.
  intros Hfit. induction metrics as [|metric metrics IH]; intros w; [done|].
  cbn [metric_results]. rewrite score_metric_result.
  specialize (Hfit w metric).
  destruct (evaluate w contents metric) as [w' outcome]. cbn [fst snd] in *.
  cbn [forallb]. by rewrite result_fits_outcome, IH.
Qed.

Lemma group_fold_members h (group_by : string) (rows : list nat) :
  ∀ grouped : dict (list nat),
    concat (map snd (group_fold h group_by rows grouped))
    ≡ₚ concat (map snd grouped) ++ rows.
Proof.
  induction rows as [|l rows IH]; intros grouped; simpl; [by rewrite app_nil_r|].
  rewrite IH, concat_setdefault_append. by rewrite <- Permutation_middle.
Qed.

Lemma process_groups_completes (grouped : dict (list nat))
    (requested : option (list string)) :
  nonempty (default [] requested) = false →
  (∀ (w : World) (contents : list row) metric,
     outcome_fits (length contents) (snd (evaluate w contents metric)) = true) →
  ∀ run_state,
    Forall (λ group, Forall (λ l, l < length (run_heap run_state)) (snd group))
      grouped →
    snd (process_groups requested run_state grouped) = Ok tt.
Proof.
  intros Hauto Hfit.
  induction grouped as [|[group_name members] grouped IH]; intros run_state Hvalid;
    simpl; [done|].
  apply Forall_cons in Hvalid as [Hmembers Hvalid]. simpl in Hmembers.
  assert (snd (process_group requested run_state group_name members) = Ok tt) as Hok.
  { unfold process_group.
    destruct (pick_metric_names_auto_ok (map (deref (run_heap run_state)) members)
                requested group_name Hauto) as (selected & Hpick).
    rewrite Hpick. destruct (nonempty selected); simpl.
    - rewrite (build_metrics_known selected)
        by (eapply pick_metric_names_known; exact Hpick).
      destruct (score_rows_unfold (run_world run_state) (run_heap run_state) members
                  (map construct selected)) as (copies & Hlen & _ & _ & Hscore).
      destruct (score_loop_result members (run_heap run_state)
                  (map construct selected) Hmembers copies
                  (Scoring (run_world run_state) (run_heap run_state ++ copies) ∅ ∅)
                  eq_refl) as [Hres _].
      simpl in Hres.
      rewrite (scorer_outcomes_fit (length copies)) in Hres.
      2: { intros w0 m0. rewrite Hlen.
           rewrite <- (length_map (deref (run_heap run_state)) members).
           apply Hfit. }
      rewrite Hscore.
      destruct (score_loop _ _ _ (map construct selected)) as [st res].
      simpl in Hres. by subst res.
    - by destruct (copy_rows _ _). }
  destruct (process_group_effect requested run_state group_name members)
    as [[new Hnew] _].
  destruct (process_group requested run_state group_name members) as [st1 res].
  simpl in Hok, Hnew. subst res. apply IH.
  eapply Forall_impl; [exact Hvalid|]. intros group Hgroup. cbn beta in *.
  eapply Forall_impl; [exact Hgroup|]. intros l Hl. cbn beta in *.
  rewrite Hnew, length_app. lia.
Qed.

(** X23: with automatic selection, a run over a non-empty input completes
    however many scorer calls fail, provided that the scorer never returns
    more records than it was given rows. *)
Theorem evaluate_rows_completes (w : World) h (rows : list nat) (group_by : string)
    (requested : option (list string)) :
  group_by ∈ ["category"; "none"] →
  rows ≠ [] →
  Forall (λ l, l < length h) rows →
  requested = None ∨ requested = Some [] →
  (∀ (w : World) (contents : list row) metric,
     outcome_fits (length contents) (snd (evaluate w contents metric)) = true) →
  snd (evaluate_rows w h rows group_by requested) = Ok tt.
Proof.
  intros Hmode Hne Hrows Hreq Hfit. unfold evaluate_rows.
  rewrite bool_decide_eq_true_2 by done. apply nonempty_spec in Hne.
  rewrite Hne. simpl.
  apply process_groups_completes; [by destruct Hreq as [-> | ->]|done|].
  simpl. apply Forall_forall. intros [k members] Hgroup. simpl.
  apply Forall_forall. intros l Hl.
  pose proof (group_fold_members h group_by rows []) as Hperm. simpl in Hperm.
  rewrite Forall_forall in Hrows. apply Hrows.
  rewrite <- Hperm. apply list_elem_of_In, in_concat. exists members.
  split; [|by apply list_elem_of_In].
  apply in_map_iff. exists (k, members). split; [done|]. by apply list_elem_of_In.
Qed.

(** X24: the summary and the failure map have entries only under names of
    metrics that were scored. *)
Theorem score_rows_entries (w : World) h rows metrics (key : string) :
  key ∉ map metric_name metrics →
  ∀ scored group_summary failures,
    snd (score_rows w h rows metrics) = Ok (scored, group_summary, failures) →
    group_summary !! key = None ∧ failures !! key = None.
Proof.
  intros Hkey scored group_summary failures.
  destruct (score_rows_unfold w h rows metrics) as (copies & _ & _ & _ & ->).
  destruct (score_loop_other rows (seq (length h) (length copies)) key metrics Hkey
              (Scoring w (h ++ copies) ∅ ∅)) as [Hs Hf].
  destruct (score_loop _ _ _ metrics) as [st [[]|e]]; simpl in *; [|done].
  intros [= _ <- <-]. by rewrite Hs, Hf.
Qed.

End Properties.

(** * Scenarios *)

Section Scenarios.

Local Abbreviation row := (dict (@value Q)).

Example scenario_A :
  pick_metric_names [Demo.qa_row] None "qa"
  = Ok (["semantic_similarity"; "factual_correctness"],
        ["response_relevancy"; "factual_correctness"; "semantic_similarity"]).
Proof. reflexivity. Qed.

Example scenario_D :
  ∃ h' group_summary failures,
    Demo.score_rows Demo.one_failure_script [Demo.qa_row] [0]
      ["semantic_similarity"; "factual_correctness"]
    = ([], h', Ok ([1], group_summary, failures))
    ∧ group_summary !! "factual_correctness" = Some (1 # 2)%Q
    ∧ group_summary !! "semantic_similarity" = None
    ∧ failures !! "semantic_similarity" = Some "scorer timed out"
    ∧ failures !! "factual_correctness" = None
    ∧ row_get (deref h' 1) "semantic_similarity" = VNone
    ∧ row_get (deref h' 1) "factual_correctness" = VFloat (1 # 2)%Q.
Proof.
  eexists _, _, _. split; [reflexivity|]. by vm_compute.
Qed.

(** Falsy numbers and booleans are usable; null, a missing key, a blank
    string and an empty list are not. *)
Example has_value_examples :
  has_value [("k", @VInt Q 0)] "k" = true
  ∧ has_value [("k", @VBool Q false)] "k" = true
  ∧ has_value [("k", @VDict Q [])] "k" = true
  ∧ has_value [("k", @VNone Q)] "k" = false
  ∧ has_value (@nil (string * @value Q)) "k" = false
  ∧ has_value [("k", @VStr Q "  ")] "k" = false
  ∧ has_value [("k", @VList Q [])] "k" = false.
Proof. by vm_compute. Qed.

Example scenario_B :
  pick_metric_names [Demo.qa_row] (Some ["faithfulness"]) "qa"
  = Raise (MissingFieldsError ["faithfulness"]).
Proof. reflexivity. Qed.

Example scenario_C :
  pick_metric_names [Demo.qa_row] (Some ["bogus_metric"]) "qa"
  = Raise (UnsupportedMetricError ["bogus_metric"]
             [ "context_recall"; "factual_correctness"; "faithfulness";
               "response_relevancy"; "semantic_similarity" ]).
Proof. reflexivity. Qed.

(** C1, counterexample: in one run over one row, the scorer fails and then
    succeeds for a metric that is listed twice, and succeeds without a numeric
    score for another metric; the first name is then in both maps and the
    second in neither. *)
Lemma score_rows_not_exactly_one :
  ∃ h' group_summary failures,
    Demo.score_rows Demo.unsettled_script [Demo.qa_row] [0]
      ["semantic_similarity"; "semantic_similarity"; "factual_correctness"]
    = ([], h', Ok ([1], group_summary, failures))
    ∧ ¬ in_exactly_one "factual_correctness" group_summary failures
    ∧ group_summary !! "factual_correctness" = None
    ∧ failures !! "factual_correctness" = None
    ∧ ¬ in_exactly_one "semantic_similarity" group_summary failures
    ∧ is_Some (group_summary !! "semantic_similarity")
    ∧ is_Some (failures !! "semantic_similarity").
Proof.
  eexists _, _, _. split; [reflexivity|]. unfold in_exactly_one.
  assert (∀ A (x : A), is_Some (Some x)) as Hsome by (intros; eauto).
  vm_compute. split_and!; try done; try apply Hsome.
  - intros [[[? [=]]|[? [=]]] _].
  - intros [_ Hboth]. apply Hboth. split; apply Hsome.
Qed.

(** C6, counterexample: the [category] of the row is the non-empty string
    of one space, yet the key is not its trimmed value: it is the
    [metadata.category] of the row. *)
Lemma get_group_key_blank_category :
  row_get Demo.blank_category_row "category" = VStr " "
  ∧ " " ≠ ""
  ∧ get_group_key Demo.blank_category_row "category" ≠ PyStr.strip " "
  ∧ get_group_key Demo.blank_category_row "category" = "qa".
Proof. by vm_compute. Qed.

Lemma pick_metric_names_requested_witness :
  let unknown := ["zeta"; "faithfulness"; "alpha"] in
  let starved := ["faithfulness"; "semantic_similarity"; "context_recall"] in
  unknown ≠ []
  ∧ starved ≠ []
  ∧ Exists (λ m, m ∉ known_metrics) unknown
  ∧ Forall (λ m, m ∈ known_metrics) starved
  ∧ Exists (λ m, m ∉ available_metrics [Demo.qa_row]) starved
  ∧ (∃ listing,
       pick_metric_names [Demo.qa_row] (Some unknown) "qa"
       = Raise (ValueError
                  ("Unsupported metrics: " +:+ listing +:+ ". Supported metrics: "
                   +:+ "context_recall, factual_correctness, faithfulness, response_relevancy, semantic_similarity"))
       ∧ enumerates ["alpha"; "zeta"] listing)
  ∧ (∃ listing,
       pick_metric_names [Demo.qa_row] (Some starved) "qa"
       = Raise (ValueError
                  ("Requested metrics are missing required fields in at least one row: "
                   +:+ listing))
       ∧ enumerates ["faithfulness"; "context_recall"] listing)
  ∧ pick_metric_names [Demo.qa_row] (Some unknown) "qa"
    = Raise (ValueError
               "Unsupported metrics: alpha, zeta. Supported metrics: context_recall, factual_correctness, faithfulness, response_relevancy, semantic_similarity")
  ∧ pick_metric_names [Demo.qa_row] (Some starved) "qa"
    = Raise (ValueError
               "Requested metrics are missing required fields in at least one row: faithfulness, context_recall").
Proof.
  intros unknown starved.
  assert (Hne1 : unknown ≠ []) by done.
  assert (Hne2 : starved ≠ []) by done.
  assert (Hbad : Exists (λ m, m ∉ known_metrics) unknown).
  { apply Exists_cons_hd. apply (bool_decide_unpack _). by vm_compute. }
  assert (Hknown : Forall (λ m, m ∈ known_metrics) starved).
  { repeat constructor; apply (bool_decide_unpack _); by vm_compute. }
  assert (Hmissing : Exists (λ m, m ∉ available_metrics [Demo.qa_row]) starved).
  { apply Exists_cons_hd. apply (bool_decide_unpack _). by vm_compute. }
  destruct (pick_metric_names_requested [Demo.qa_row] unknown "qa" Hne1)
    as [Hunsupported _].
  destruct (pick_metric_names_requested [Demo.qa_row] starved "qa" Hne2)
    as (_ & Hstarved & _).
  destruct (Hunsupported Hbad) as (listing1 & Hpick1 & Hlist1 & _).
  destruct (Hstarved Hknown Hmissing) as (listing2 & Hpick2 & Hlist2 & _).
  vm_compute in Hlist1, Hlist2.
  split; [exact Hne1|]. split; [exact Hne2|]. split; [exact Hbad|].
  split; [exact Hknown|]. split; [exact Hmissing|].
  split; [exists listing1; split; [exact Hpick1|exact Hlist1]|].
  split; [exists listing2; split; [exact Hpick2|exact Hlist2]|].
  split; vm_compute; reflexivity.
Defined.

Lemma pick_metric_names_auto_witness :
  (@None (list string) = None ∨ @None (list string) = Some [])
  ∧ normalized_name " Work_Search " "work-search"
  ∧ pick_metric_names [Demo.qa_row] None " Work_Search "
    = Ok (["semantic_similarity"],
          ["response_relevancy"; "factual_correctness"; "semantic_similarity"]).
Proof.
  assert (Hreq : @None (list string) = None ∨ @None (list string) = Some [])
    by by left.
  destruct (pick_metric_names_auto [Demo.qa_row] None " Work_Search " Hreq)
    as (normalized & Hname & Hunique & Hpick & _).
  assert (Hnorm : normalized_name " Work_Search " "work-search").
  { apply normalized_name_spec. vm_compute. reflexivity. }
  split; [exact Hreq|]. split; [exact Hnorm|].
  rewrite Hpick, <- (Hunique _ Hnorm). vm_compute. reflexivity.
Defined.

Lemma get_group_key_resolution_witness :
  "category" ≠ "none"
  ∧ trimmed_text (metadata_category Demo.blank_category_row) "qa"
  ∧ get_group_key Demo.blank_category_row "category" = "qa".
Proof.
  assert (Hmode : "category" ≠ "none") by done.
  assert (Hmeta : trimmed_text (metadata_category Demo.blank_category_row) "qa").
  { exists "qa". by vm_compute. }
  split; [done|]. split; [done|].
  destruct (get_group_key_resolution Demo.blank_category_row "category")
    as [_ Hkey].
  destruct (Hkey Hmode) as [_ Hfallback].
  destruct Hfallback as [Hnested _].
  - intros (text & raw & [= <-] & -> & Hne). by apply Hne.
  - by apply Hnested.
Defined.

Lemma score_rows_summary_or_failure_witness :
  let metrics := ["semantic_similarity"; "factual_correctness"] in
  let run := Demo.score_rows Demo.overflow_script [Demo.qa_row] [0] metrics in
  let group_summary :=
    match snd run with Ok (_, group_summary, _) => group_summary | Raise _ => ∅ end in
  let failures :=
    match snd run with Ok (_, _, failures) => failures | Raise _ => ∅ end in
  Forall (λ l, l < length [Demo.qa_row]) [0]
  ∧ NoDup (map (metric_name Demo.name_attr Demo.class_name) metrics)
  ∧ run = ([], snd (fst run), Ok ([1], group_summary, failures))
  ∧ metric_results Demo.float_of_int Demo.fmean Demo.name_attr Demo.class_name
      Demo.evaluate Demo.overflow_script (map (deref [Demo.qa_row]) [0]) metrics
    = [ inl "int too large to convert to float";
        inr ([ [("factual_correctness", VFloat (1 # 2)%Q)] ], Some (1 # 2)%Q) ]
  ∧ failures !! "semantic_similarity" = Some "int too large to convert to float"
  ∧ ¬ (is_Some (group_summary !! "semantic_similarity")
       ∧ is_Some (failures !! "semantic_similarity"))
  ∧ is_Some (group_summary !! "factual_correctness")
  ∧ in_exactly_one "factual_correctness" group_summary failures.
Proof.
  intros metrics run group_summary failures.
  assert (Hrows : Forall (λ l, l < length [Demo.qa_row]) [0]).
  { repeat constructor. }
  assert (Hnd : NoDup (map (metric_name Demo.name_attr Demo.class_name) metrics)).
  { apply (bool_decide_unpack _). by vm_compute. }
  assert (Hrun : run = ([], snd (fst run), Ok ([1], group_summary, failures))).
  { vm_compute. reflexivity. }
  assert (Hresults :
    metric_results Demo.float_of_int Demo.fmean Demo.name_attr Demo.class_name
      Demo.evaluate Demo.overflow_script (map (deref [Demo.qa_row]) [0]) metrics
    = [ inl "int too large to convert to float";
        inr ([ [("factual_correctness", VFloat (1 # 2)%Q)] ], Some (1 # 2)%Q) ]).
  { vm_compute. reflexivity. }
  assert (Hfirst :
    metric_results Demo.float_of_int Demo.fmean Demo.name_attr Demo.class_name
      Demo.evaluate Demo.overflow_script (map (deref [Demo.qa_row]) [0]) metrics
      !! 0 = Some (inl "int too large to convert to float")).
  { rewrite Hresults. reflexivity. }
  assert (Hsecond :
    metric_results Demo.float_of_int Demo.fmean Demo.name_attr Demo.class_name
      Demo.evaluate Demo.overflow_script (map (deref [Demo.qa_row]) [0]) metrics
      !! 1
    = Some (inr ([ [("factual_correctness", VFloat (1 # 2)%Q)] ], Some (1 # 2)%Q))).
  { rewrite Hresults. reflexivity. }
  destruct (score_rows_summary_or_failure Demo.float_of_int Demo.fmean
              Demo.name_attr Demo.class_name Demo.evaluate
              Demo.overflow_script [] [Demo.qa_row] (snd (fst run)) [0] metrics [1]
              group_summary failures 0 "semantic_similarity" _
              Hrows Hnd Hrun eq_refl Hfirst)
    as (Hboth & _ & Hmessage & _).
  destruct (score_rows_summary_or_failure Demo.float_of_int Demo.fmean
              Demo.name_attr Demo.class_name Demo.evaluate
              Demo.overflow_script [] [Demo.qa_row] (snd (fst run)) [0] metrics [1]
              group_summary failures 1 "factual_correctness" _
              Hrows Hnd Hrun eq_refl Hsecond)
    as (_ & _ & _ & Hsummary & Hone).
  split; [exact Hrows|]. split; [exact Hnd|]. split; [exact Hrun|].
  split; [exact Hresults|]. split; [exact (Hmessage _ eq_refl)|].
  split; [exact Hboth|]. split.
  - apply Hsummary. by eexists _, _.
  - apply Hone. by intros [metric_rows [=]].
Defined.

(** C7, counterexample. In a first run the scorer returns, for the one row
    of a group, a score that is an integer too large for a float: the metric
    has a numeric score, yet the summary has no entry for it, because the
    conversion raises inside [score_metric]; the metric goes to the failure
    map and the score of the row is null. In a second run a metric is listed
    twice and the scorer returns a float, then a text: at the end the row has
    no numeric score for the metric, yet the summary has the mean of the
    first call. *)
Lemma score_rows_summary_not_mean :
  (∃ h' group_summary failures,
     Demo.score_rows Demo.overflow_script [Demo.qa_row] [0]
       ["semantic_similarity"; "factual_correctness"]
     = ([], h', Ok ([1], group_summary, failures))
     ∧ numeric_scores "semantic_similarity" Demo.overflow_records
       = [VInt (2 ^ 1024)]
     ∧ group_summary !! "semantic_similarity" = None
     ∧ failures !! "semantic_similarity" = Some "int too large to convert to float"
     ∧ row_get (deref h' 1) "semantic_similarity" = VNone)
  ∧ (∃ h' group_summary failures,
       Demo.score_rows Demo.repeated_script [Demo.qa_row] [0]
         ["semantic_similarity"; "semantic_similarity"]
       = ([], h', Ok ([1], group_summary, failures))
       ∧ row_get (deref h' 1) "semantic_similarity" = VStr "n/a"
       ∧ group_summary !! "semantic_similarity" = Some (1 # 2)%Q
       ∧ failures !! "semantic_similarity" = None).
Proof.
  split.
  - set (run := Demo.score_rows Demo.overflow_script [Demo.qa_row] [0]
                  ["semantic_similarity"; "factual_correctness"]).
    exists (snd (fst run)),
      (match snd run with Ok (_, group_summary, _) => group_summary | Raise _ => ∅ end),
      (match snd run with Ok (_, _, failures) => failures | Raise _ => ∅ end).
    split_and!; vm_compute; reflexivity.
  - set (run := Demo.score_rows Demo.repeated_script [Demo.qa_row] [0]
                  ["semantic_similarity"; "semantic_similarity"]).
    exists (snd (fst run)),
      (match snd run with Ok (_, group_summary, _) => group_summary | Raise _ => ∅ end),
      (match snd run with Ok (_, _, failures) => failures | Raise _ => ∅ end).
    split_and!; vm_compute; reflexivity.
Qed.

Lemma score_rows_summary_mean_witness :
  let rows := [Demo.qa_row; Demo.qa_row; Demo.qa_row; Demo.qa_row] in
  let metrics := ["semantic_similarity"] in
  let run := Demo.score_rows Demo.mixed_script rows [0; 1; 2; 3] metrics in
  let group_summary :=
    match snd run with Ok (_, group_summary, _) => group_summary | Raise _ => ∅ end in
  let failures :=
    match snd run with Ok (_, _, failures) => failures | Raise _ => ∅ end in
  Forall (λ l, l < length rows) [0; 1; 2; 3]
  ∧ NoDup (map (metric_name Demo.name_attr Demo.class_name) metrics)
  ∧ run = ([], snd (fst run), Ok ([4; 5; 6; 7], group_summary, failures))
  ∧ numeric_scores "semantic_similarity" Demo.mixed_records
    = [VFloat (1 # 2)%Q; VInt 1]
  ∧ Forall2 (λ v x, float_of Demo.float_of_int v (inr x))
      (numeric_scores "semantic_similarity" Demo.mixed_records)
      [(1 # 2)%Q; (1 # 1)%Q]
  ∧ Demo.fmean [(1 # 2)%Q; (1 # 1)%Q] = inr (3 # 4)%Q
  ∧ group_summary !! "semantic_similarity" = Some (3 # 4)%Q
  ∧ failures !! "semantic_similarity" = None.
Proof.
  intros rows metrics run group_summary failures.
  assert (Hrows : Forall (λ l, l < length rows) [0; 1; 2; 3]).
  { repeat constructor. }
  assert (Hnd : NoDup (map (metric_name Demo.name_attr Demo.class_name) metrics)).
  { apply (bool_decide_unpack _). by vm_compute. }
  assert (Hrun : run = ([], snd (fst run), Ok ([4; 5; 6; 7], group_summary, failures))).
  { vm_compute. reflexivity. }
  assert (Hscores : numeric_scores "semantic_similarity" Demo.mixed_records
                    = [VFloat (1 # 2)%Q; VInt 1]).
  { vm_compute. reflexivity. }
  assert (Hvalues : Forall2 (λ v x, float_of Demo.float_of_int v (inr x))
                      (numeric_scores "semantic_similarity" Demo.mixed_records)
                      [(1 # 2)%Q; (1 # 1)%Q]).
  { rewrite Hscores. constructor; [constructor|].
    constructor; [|constructor].
    exact (float_of_integer Demo.float_of_int 1). }
  assert (Hmean : Demo.fmean [(1 # 2)%Q; (1 # 1)%Q] = inr (3 # 4)%Q).
  { vm_compute. reflexivity. }
  destruct (score_rows_summary_mean Demo.float_of_int Demo.fmean
              Demo.name_attr Demo.class_name Demo.evaluate
              Demo.mixed_script [] rows (snd (fst run)) [0; 1; 2; 3] metrics
              [4; 5; 6; 7] group_summary failures 0 "semantic_similarity"
              Demo.mixed_records Hrows Hnd Hrun eq_refl eq_refl)
    as [Hfloats _].
  destruct (Hfloats _ Hvalues) as (_ & Hsome & _).
  destruct (Hsome (3 # 4)%Q) as [Hsummary Hfailure]; [done|exact Hmean|].
  split; [exact Hrows|]. split; [exact Hnd|]. split; [exact Hrun|].
  split; [exact Hscores|]. split; [exact Hvalues|]. split; [exact Hmean|].
  split; [exact Hsummary|exact Hfailure].
Defined.

Lemma score_rows_failure_isolated_witness :
  ∃ st0 scored st2,
    score_rows_init Demo.one_failure_script [Demo.qa_row] [0] = (st0, scored)
    ∧ score_loop Demo.float_of_int Demo.fmean Demo.name_attr Demo.class_name
        Demo.evaluate [0] scored st0 [] = (st0, Ok tt)
    ∧ Demo.evaluate (sc_world st0) (map (deref (sc_heap st0)) [0])
        "semantic_similarity"
      = (skipn 1 Demo.one_failure_script, ScorerRaised "scorer timed out")
    ∧ score_step Demo.float_of_int Demo.fmean Demo.name_attr Demo.class_name
        Demo.evaluate [0] scored st0 "semantic_similarity" = (st2, Ok tt)
    ∧ sc_failures st2 !! "semantic_similarity" = Some "scorer timed out"
    ∧ Forall (λ l, dict_get (deref (sc_heap st2) l) "semantic_similarity"
                   = Some VNone) scored.
Proof.
  eexists _, _.
  destruct (score_rows_failure_isolated Demo.float_of_int Demo.fmean
              Demo.name_attr Demo.class_name Demo.evaluate
              Demo.one_failure_script (skipn 1 Demo.one_failure_script)
              [Demo.qa_row] [0] [] ["factual_correctness"]
              "semantic_similarity" _ _ _ "scorer timed out"
              eq_refl eq_refl eq_refl)
    as (st2 & Hstep & Hfailures & _ & _ & Hnull & _).
  exists st2. split; [reflexivity|]. split; [reflexivity|].
  split; [reflexivity|]. split; [exact Hstep|].
  split; [|exact Hnull].
  rewrite Hfailures. apply lookup_insert_eq.
Defined.

Lemma process_group_no_metrics_witness :
  let start : @run Q (list (@scorer_outcome Q)) :=
    Run [] [Demo.bare_row] [] [] [] [] in
  Forall (λ l, l < length (run_heap start)) [0]
  ∧ pick_metric_names (map (deref (run_heap start)) [0]) None "misc" = Ok ([], [])
  ∧ ∃ report final,
      process_group Demo.float_of_int Demo.fmean Demo.name_attr Demo.class_name
        Demo.evaluate Demo.construct None start "misc" [0] = (final, Ok tt)
      ∧ dict_get (groups_output final) "misc" = Some report
      ∧ selected_metrics report = []
      ∧ summary report = ∅
      ∧ metric_failures report = {[ "_group" := no_metrics_message ]}
      ∧ report_rows report = [1]
      ∧ run_heap final
        = [ Demo.bare_row;
            [("note", VStr "n/a"); ("evaluation_group", VStr "misc")] ].
Proof.
  intros start.
  assert (Hrows : Forall (λ l, l < length (run_heap start)) [0]).
  { repeat constructor. }
  split; [exact Hrows|]. split; [reflexivity|].
  destruct (process_group_no_metrics Demo.float_of_int Demo.fmean Demo.name_attr
              Demo.class_name Demo.evaluate Demo.construct None start "misc" [0] []
              Hrows eq_refl)
    as (report & final & Hrun & Hreport & _ & Hsel & _ & Hsum & Hfail & _ & Hcopies
        & Hheap & _).
  exists report, final. repeat (split; [assumption|]). exact Hheap.
Defined.

(** ** Witnesses of the further properties *)

Lemma group_rows_none_witness :
  [0; 1] ≠ []
  ∧ group_rows [Demo.qa_row; Demo.bare_row] [0; 1] "none" = [("all", [0; 1])].
Proof.
  split; [done|]. apply (group_rows_none [Demo.qa_row; Demo.bare_row] [0; 1]). done.
Defined.

Lemma pick_metric_names_selected_eligible_witness :
  pick_metric_names [Demo.qa_row] None "qa"
  = Ok (["semantic_similarity"; "factual_correctness"],
        ["response_relevancy"; "factual_correctness"; "semantic_similarity"])
  ∧ ["semantic_similarity"; "factual_correctness"]
    ⊆ ["response_relevancy"; "factual_correctness"; "semantic_similarity"].
Proof.
  split; [reflexivity|].
  apply (pick_metric_names_selected_eligible [Demo.qa_row] None "qa" _ _ eq_refl).
Defined.

Lemma pick_metric_names_auto_NoDup_witness :
  (@None (list string) = None ∨ @None (list string) = Some [])
  ∧ pick_metric_names [Demo.qa_row] None "qa"
    = Ok (["semantic_similarity"; "factual_correctness"],
          ["response_relevancy"; "factual_correctness"; "semantic_similarity"])
  ∧ NoDup ["semantic_similarity"; "factual_correctness"].
Proof.
  split; [by left|]. split; [reflexivity|].
  apply (pick_metric_names_auto_NoDup [Demo.qa_row] None "qa" _ _
           (or_introl eq_refl) eq_refl).
Defined.

Lemma build_metrics_selected_witness :
  pick_metric_names [Demo.qa_row] None "qa"
  = Ok (["semantic_similarity"; "factual_correctness"],
        ["response_relevancy"; "factual_correctness"; "semantic_similarity"])
  ∧ build_metrics Demo.construct ["semantic_similarity"; "factual_correctness"]
    = Ok ["semantic_similarity"; "factual_correctness"].
Proof.
  split; [reflexivity|].
  apply (build_metrics_selected Demo.construct [Demo.qa_row] None "qa" _ _ eq_refl).
Defined.

Lemma build_metrics_unknown_witness :
  Forall (λ m, m ∈ known_metrics) ["faithfulness"]
  ∧ ("bogus_metric" ∉ known_metrics)
  ∧ build_metrics Demo.construct ["faithfulness"; "bogus_metric"; "context_recall"]
    = Raise (KeyError "bogus_metric").
Proof.
  assert (Hpre : Forall (λ m, m ∈ known_metrics) ["faithfulness"]).
  { repeat constructor. }
  assert (Hbad : "bogus_metric" ∉ known_metrics).
  { apply (bool_decide_unpack _). by vm_compute. }
  split; [exact Hpre|]. split; [exact Hbad|].
  apply (build_metrics_unknown Demo.construct ["faithfulness"] ["context_recall"]
           "bogus_metric" Hpre Hbad).
Defined.

Lemma parse_metric_list_names_witness :
  parse_metric_list (Some " faithfulness , ,context_recall")
  = Some ["faithfulness"; "context_recall"]
  ∧ ["faithfulness"; "context_recall"] ≠ [].
Proof.
  split; [reflexivity|].
  apply (parse_metric_list_names (Some " faithfulness , ,context_recall")
           ["faithfulness"; "context_recall"] eq_refl).
Defined.

Lemma parse_metric_list_join_witness :
  ["faithfulness"; "context_recall"] ≠ []
  ∧ Forall (λ m, m ≠ "" ∧ PyStr.strip m = m
                 ∧ ","%char ∉ list_ascii_of_string m)
      ["faithfulness"; "context_recall"]
  ∧ parse_metric_list (Some "faithfulness,context_recall")
    = Some ["faithfulness"; "context_recall"].
Proof.
  assert (Hne : ["faithfulness"; "context_recall"] ≠ []) by done.
  assert (Hall : Forall (λ m, m ≠ "" ∧ PyStr.strip m = m
                              ∧ ","%char ∉ list_ascii_of_string m)
                   ["faithfulness"; "context_recall"]).
  { repeat constructor; try done;
      apply (bool_decide_unpack _); by vm_compute. }
  split; [exact Hne|]. split; [exact Hall|].
  apply (parse_metric_list_join ["faithfulness"; "context_recall"] Hne Hall).
Defined.

Lemma resolve_region_environ_witness :
  let environ : gmap string string :=
    <["AWS_REGION" := ""]> (<["AWS_DEFAULT_REGION" := "eu-west-1"]> ∅) in
  snd (resolve_region None environ) = Ok "eu-west-1"
  ∧ fst (resolve_region None environ) !! "AWS_REGION" = Some ""
  ∧ fst (resolve_region None environ) !! "AWS_REGION_NAME" = Some "eu-west-1".
Proof.
  intros environ.
  assert (Hok : snd (resolve_region None environ) = Ok "eu-west-1") by by vm_compute.
  split; [exact Hok|]. split.
  - destruct (resolve_region_environ None environ "eu-west-1" "AWS_REGION" Hok)
      as [_ Hkey].
    rewrite Hkey. by vm_compute.
  - destruct (resolve_region_environ None environ "eu-west-1" "AWS_REGION_NAME" Hok)
      as [_ Hkey].
    rewrite Hkey. by vm_compute.
Defined.

Lemma normalize_json_value_identity_witness :
  let v : @value Q := VDict [("a", VList [VInt 1; VStr "x"; VNone])] in
  json_value v = true ∧ normalize_json_value v = v.
Proof.
  intros v. split; [reflexivity|].
  apply (normalize_json_value_identity v). reflexivity.
Defined.

Lemma normalize_json_value_json_witness :
  let v : @value Q :=
    VTuple [VObject (Some (Some (VFloat (1 # 2)%Q))) "0.5"; VObject None "2024-01-01"] in
  items_json v = true
  ∧ json_value (normalize_json_value v) = true.
Proof.
  intros v. split; [reflexivity|].
  apply (normalize_json_value_json v). reflexivity.
Defined.

Lemma score_rows_completes_witness :
  let metrics := ["semantic_similarity"; "factual_correctness"] in
  Forall (λ l, l < length [Demo.qa_row]) [0]
  ∧ forallb (result_fits (length [0]))
      (metric_results Demo.float_of_int Demo.fmean Demo.name_attr Demo.class_name
         Demo.evaluate Demo.overflow_script (map (deref [Demo.qa_row]) [0]) metrics)
    = true
  ∧ (∃ h' group_summary failures,
       Demo.score_rows Demo.overflow_script [Demo.qa_row] [0] metrics
       = ([], h', Ok ([1], group_summary, failures)))
  ∧ forallb (result_fits (length [0]))
      (metric_results Demo.float_of_int Demo.fmean Demo.name_attr Demo.class_name
         Demo.evaluate Demo.mixed_script (map (deref [Demo.qa_row]) [0])
         ["semantic_similarity"])
    = false
  ∧ snd (Demo.score_rows Demo.mixed_script [Demo.qa_row] [0] ["semantic_similarity"])
    = Raise (IndexError "list index out of range").
Proof.
  intros metrics.
  assert (Hrows : Forall (λ l, l < length [Demo.qa_row]) [0]).
  { repeat constructor. }
  assert (Hfits :
    forallb (result_fits (length [0]))
      (metric_results Demo.float_of_int Demo.fmean Demo.name_attr Demo.class_name
         Demo.evaluate Demo.overflow_script (map (deref [Demo.qa_row]) [0]) metrics)
    = true).
  { vm_compute. reflexivity. }
  assert (Hover :
    forallb (result_fits (length [0]))
      (metric_results Demo.float_of_int Demo.fmean Demo.name_attr Demo.class_name
         Demo.evaluate Demo.mixed_script (map (deref [Demo.qa_row]) [0])
         ["semantic_similarity"])
    = false).
  { vm_compute. reflexivity. }
  destruct (score_rows_completes Demo.float_of_int Demo.fmean Demo.name_attr
              Demo.class_name Demo.evaluate Demo.overflow_script [Demo.qa_row] [0]
              metrics Hrows)
    as [Hok _].
  destruct (score_rows_completes Demo.float_of_int Demo.fmean Demo.name_attr
              Demo.class_name Demo.evaluate Demo.mixed_script [Demo.qa_row] [0]
              ["semantic_similarity"] Hrows)
    as [_ Hraise].
  split; [exact Hrows|]. split; [exact Hfits|]. split; [exact (Hok Hfits)|].
  split; [exact Hover|exact (Hraise Hover)].
Defined.

Lemma score_rows_scores_by_position_witness :
  let metrics := ["semantic_similarity"; "factual_correctness"] in
  let run := Demo.score_rows Demo.overflow_script [Demo.qa_row] [0] metrics in
  let group_summary :=
    match snd run with Ok (_, group_summary, _) => group_summary | Raise _ => ∅ end in
  let failures :=
    match snd run with Ok (_, _, failures) => failures | Raise _ => ∅ end in
  Forall (λ l, l < length [Demo.qa_row]) [0]
  ∧ NoDup (map (metric_name Demo.name_attr Demo.class_name) metrics)
  ∧ run = ([], snd (fst run), Ok ([1], group_summary, failures))
  ∧ score_records Demo.float_of_int Demo.fmean "factual_correctness"
      [ [("factual_correctness", VFloat (1 # 2)%Q)] ]
    = inr ([ [("factual_correctness", VFloat (1 # 2)%Q)] ], Some (1 # 2)%Q)
  ∧ score_records Demo.float_of_int Demo.fmean "semantic_similarity"
      Demo.overflow_records
    = inl "int too large to convert to float"
  ∧ dict_get (deref (snd (fst run)) 1) "factual_correctness"
    = Some (VFloat (1 # 2)%Q)
  ∧ dict_get (deref (snd (fst run)) 1) "semantic_similarity" = Some VNone.
Proof.
  intros metrics run group_summary failures.
  assert (Hrows : Forall (λ l, l < length [Demo.qa_row]) [0]).
  { repeat constructor. }
  assert (Hnd : NoDup (map (metric_name Demo.name_attr Demo.class_name) metrics)).
  { apply (bool_decide_unpack _). by vm_compute. }
  assert (Hrun : run = ([], snd (fst run), Ok ([1], group_summary, failures))).
  { vm_compute. reflexivity. }
  assert (Hscored :
    score_records Demo.float_of_int Demo.fmean "factual_correctness"
      [ [("factual_correctness", VFloat (1 # 2)%Q)] ]
    = inr ([ [("factual_correctness", VFloat (1 # 2)%Q)] ], Some (1 # 2)%Q)).
  { vm_compute. reflexivity. }
  assert (Hraised :
    score_records Demo.float_of_int Demo.fmean "semantic_similarity"
      Demo.overflow_records
    = inl "int too large to convert to float").
  { vm_compute. reflexivity. }
  destruct (score_rows_scores_by_position Demo.float_of_int Demo.fmean
              Demo.name_attr Demo.class_name Demo.evaluate
              Demo.overflow_script [] [Demo.qa_row] (snd (fst run)) [0] metrics [1]
              group_summary failures 1 "factual_correctness"
              [ [("factual_correctness", VFloat (1 # 2)%Q)] ]
              Hrows Hnd Hrun eq_refl eq_refl)
    as [Hscore _].
  destruct (score_rows_scores_by_position Demo.float_of_int Demo.fmean
              Demo.name_attr Demo.class_name Demo.evaluate
              Demo.overflow_script [] [Demo.qa_row] (snd (fst run)) [0] metrics [1]
              group_summary failures 0 "semantic_similarity"
              Demo.overflow_records Hrows Hnd Hrun eq_refl eq_refl)
    as [_ Hnull].
  split; [exact Hrows|]. split; [exact Hnd|]. split; [exact Hrun|].
  split; [exact Hscored|]. split; [exact Hraised|]. split.
  - exact (Hscore _ _ Hscored 0 1 _ eq_refl eq_refl).
  - pose proof (Hnull _ Hraised) as Hall.
    apply Forall_cons in Hall as [Hone _]. exact Hone.
Defined.

Lemma score_rows_entries_witness :
  ("faithfulness" ∉ map (metric_name Demo.name_attr Demo.class_name)
                      ["semantic_similarity"; "factual_correctness"])
  ∧ ∃ h' group_summary failures,
      Demo.score_rows Demo.one_failure_script [Demo.qa_row] [0]
        ["semantic_similarity"; "factual_correctness"]
      = ([], h', Ok ([1], group_summary, failures))
      ∧ group_summary !! "faithfulness" = None
      ∧ failures !! "faithfulness" = None.
Proof.
  assert (Hkey : "faithfulness"
                 ∉ map (metric_name Demo.name_attr Demo.class_name)
                     ["semantic_similarity"; "factual_correctness"]).
  { apply (bool_decide_unpack _). by vm_compute. }
  split; [exact Hkey|]. eexists _, _, _. split; [reflexivity|].
  apply (score_rows_entries Demo.float_of_int Demo.fmean Demo.name_attr
           Demo.class_name Demo.evaluate Demo.one_failure_script [Demo.qa_row] [0]
           ["semantic_similarity"; "factual_correctness"] "faithfulness" Hkey
           _ _ _ eq_refl).
Defined.

Lemma evaluate_rows_report_witness :
  ∃ final,
    Demo.evaluate_rows Demo.one_failure_script
      [Demo.qa_category_row; Demo.work_category_row; Demo.qa_category_row]
      [0; 1; 2] "category" None
    = (final, Ok tt)
    ∧ map fst (groups_output final) = ["qa"; "work"]
    ∧ map (λ e, row_count (snd e)) (groups_output final) = [2; 1]
    ∧ flattened_rows final = [3; 4; 5].
Proof.
  set (rows := [Demo.qa_category_row; Demo.work_category_row;
               Demo.qa_category_row]).
  set (final := fst (Demo.evaluate_rows Demo.one_failure_script rows [0; 1; 2]
                       "category" None)).
  assert (Hrun : Demo.evaluate_rows Demo.one_failure_script rows [0; 1; 2]
                   "category" None = (final, Ok tt)).
  { vm_compute. reflexivity. }
  exists final. split; [exact Hrun|].
  destruct (evaluate_rows_report Demo.float_of_int Demo.fmean Demo.name_attr
              Demo.class_name Demo.evaluate Demo.construct
              Demo.one_failure_script rows [0; 1; 2] "category" None final Hrun)
    as (Hkeys & Hcounts & _ & Hflat & _).
  split; [|split].
  - rewrite Hkeys. vm_compute. reflexivity.
  - rewrite Hcounts. vm_compute. reflexivity.
  - rewrite Hflat. vm_compute. reflexivity.
Defined.

Lemma evaluate_rows_unsupported_witness :
  "category" ∈ ["category"; "none"]
  ∧ [0] ≠ []
  ∧ Exists (λ m, m ∉ known_metrics) ["bogus_metric"]
  ∧ Demo.evaluate_rows Demo.one_failure_script [Demo.qa_row] [0] "category"
      (Some ["bogus_metric"])
    = (Run Demo.one_failure_script [Demo.qa_row] [] [] [] [],
       Raise (UnsupportedMetricError ["bogus_metric"]
                [ "context_recall"; "factual_correctness"; "faithfulness";
                  "response_relevancy"; "semantic_similarity" ])).
Proof.
  assert (Hmode : "category" ∈ ["category"; "none"]) by by left.
  assert (Hrows : [0] ≠ []) by done.
  assert (Hex : Exists (λ m, m ∉ known_metrics) ["bogus_metric"]).
  { apply Exists_cons_hd. apply (bool_decide_unpack _). by vm_compute. }
  split; [exact Hmode|]. split; [exact Hrows|]. split; [exact Hex|].
  apply (evaluate_rows_unsupported Demo.float_of_int Demo.fmean Demo.name_attr
           Demo.class_name Demo.evaluate Demo.construct
           Demo.one_failure_script [Demo.qa_row] [0] "category" ["bogus_metric"]
           Hmode Hrows Hex).
Defined.

Lemma evaluate_rows_completes_witness :
  "category" ∈ ["category"; "none"]
  ∧ [0; 1] ≠ []
  ∧ Forall (λ l, l < length [Demo.qa_category_row; Demo.work_category_row]) [0; 1]
  ∧ (∀ (w : unit) (contents : list (dict (@value Q))) (metric : string),
       outcome_fits (length contents) (snd (Demo.failing_evaluate w contents metric))
       = true)
  ∧ snd (evaluate_rows Demo.float_of_int Demo.fmean Demo.name_attr Demo.class_name
           Demo.failing_evaluate Demo.construct tt
           [Demo.qa_category_row; Demo.work_category_row] [0; 1] "category" None)
    = Ok tt.
Proof.
  assert (Hmode : "category" ∈ ["category"; "none"]) by by left.
  assert (Hne : [0; 1] ≠ []) by done.
  assert (Hrows : Forall (λ l, l < length [Demo.qa_category_row;
                                          Demo.work_category_row]) [0; 1]).
  { repeat constructor. }
  assert (Hfit : ∀ (w : unit) (contents : list (dict (@value Q))) (metric : string),
            outcome_fits (length contents)
              (snd (Demo.failing_evaluate w contents metric)) = true).
  { reflexivity. }
  split; [exact Hmode|]. split; [exact Hne|]. split; [exact Hrows|].
  split; [exact Hfit|].
  apply (evaluate_rows_completes Demo.float_of_int Demo.fmean Demo.name_attr
           Demo.class_name Demo.failing_evaluate Demo.construct tt
           [Demo.qa_category_row; Demo.work_category_row] [0; 1] "category" None
           Hmode Hne Hrows (or_introl eq_refl) Hfit).
Defined.

End Scenarios.
